(** * yt_dlp/extractor/europa.py: the temporal normaliser, the language
      preference resolver and the format / subtitle assembler

    A shallow embedding of [_parse_datetime], [EuropaIE._real_extract] and
    [EuroParlWebstreamIE._real_extract].

    Python values are modelled as follows.
    - [str] is [string]; a character is a code point below 256, the range in
      which [\d] matches exactly the ten ASCII digits and [str.strip] strips
      the twelve code points of [py_space].
    - A value that may be [None] is an [option].
    - A call that may raise is a [result]: [Return v] or [Raise e].
    - A [dict] with string keys is a [gmap string _]; a [dict] object that is
      shared between two lists is a location in a store [gmap loc _]. *)

From Stdlib Require Import ZArith Ascii String List Bool Lia.
From stdpp Require Import base option list gmap strings fin_maps.

Local Open Scope list_scope.
Local Open Scope Z_scope.

(** ** Exceptions and results *)

Module Py.

Inductive exn : Type :=
| ValueError
| TypeError
| OverflowError
| AttributeError.

Inductive result (A : Type) : Type :=
| Return (a : A)
| Raise (e : exn).
Arguments Return {A} a.
Arguments Raise {A} e.

Definition bind {A B} (c : result A) (k : A -> result B) : result B :=
  match c with
  | Return a => k a
  | Raise e => Raise e
  end.

(** Truthiness of an optional string: [None] and [''] are falsy. *)
Definition truthy (v : option string) : bool :=
  match v with
  | Some EmptyString => false
  | Some _ => true
  | None => false
  end.

(** [a or b] on an optional string [a] and a string [b]. *)
Definition or_else (a : option string) (b : string) : string :=
  match a with
  | Some (String c s) => String c s
  | _ => b
  end.

End Py.

Import Py.

#[global] Instance result_ret : MRet result := @Return.
#[global] Instance result_bind : MBind result := fun A B k c => Py.bind c k.

(** ** A matcher for the regular expressions of the module

    The three patterns of [_parse_datetime] are sequences of character
    classes under a bounded or unbounded greedy repetition; [re.match]
    anchors the pattern at the start of the string and ignores what follows
    the match. *)

Module Re.

Inductive cclass : Type :=
| Lit (a : ascii)            (* an escaped or plain literal *)
| Digit                      (* \d *)
| AnyOf (l : list ascii).    (* [...] *)

Inductive bound : Type :=
| Upto (n : nat)
| Unbounded.

(** [Atom c lo hi] is [c{lo,hi}]; [c*] is [Atom c 0 Unbounded]. *)
Record atom : Type := Atom { cls : cclass; lo : nat; hi : bound }.

Definition regex := list atom.

Definition is_digit (a : ascii) : bool :=
  let n := nat_of_ascii a in (48 <=? n)%nat && (n <=? 57)%nat.

Definition cmem (c : cclass) (a : ascii) : bool :=
  match c with
  | Lit b => Ascii.eqb a b
  | Digit => is_digit a
  | AnyOf l => existsb (Ascii.eqb a) l
  end.

(** Greedy repetition with backtracking: take as many characters of the
    class as [fuel] allows, then give characters back one at a time until
    the continuation [k] matches; fewer than [lo] repetitions never do. *)
Fixpoint rep (c : cclass) (k : list ascii -> option (list ascii))
    (fuel lo : nat) (s : list ascii) : option (list ascii) :=
  let stop := match lo with O => k s | S _ => None end in
  match fuel with
  | O => stop
  | S fuel' =>
      match s with
      | a :: s' =>
          if cmem c a then
            match rep c k fuel' (Nat.pred lo) s' with
            | Some t => Some t
            | None => stop
            end
          else stop
      | [] => stop
      end
  end.

Definition fuel_of (b : bound) (s : list ascii) : nat :=
  match b with
  | Upto n => n
  | Unbounded => length s
  end.

(** [rmatch r s] is the rest of [s] after the match of [r] at its start,
    or [None] when [r] does not match there. *)
Fixpoint rmatch (r : regex) (s : list ascii) : option (list ascii) :=
  match r with
  | [] => Some s
  | Atom c lo hi :: r' => rep c (rmatch r') (fuel_of hi s) lo s
  end.

(** [re.match(r, s)] used as a condition. *)
Definition re_match (r : regex) (s : string) : bool :=
  match rmatch r (list_ascii_of_string s) with
  | Some _ => true
  | None => false
  end.

(** [re.sub(g + t, r"\1", s)] for a pattern whose group 1 is [g] and whose
    remainder is [t]: every match, found from left to right, is replaced
    by the text of its group 1.  [g] is matched first and [t] after it,
    which is the match of the whole pattern when [g] has a fixed width. *)
Fixpoint sub_group1 (g t : regex) (fuel : nat) (s : list ascii) : list ascii :=
  match fuel with
  | O => s
  | S fuel' =>
      match s with
      | [] => []
      | a :: s' =>
          match rmatch g s with
          | Some after_g =>
              match rmatch t after_g with
              | Some rest =>
                  take (length s - length after_g)%nat s
                    ++ sub_group1 g t fuel' rest
              | None => a :: sub_group1 g t fuel' s'
              end
          | None => a :: sub_group1 g t fuel' s'
          end
      end
  end.

Definition re_sub_group1 (g t : regex) (s : string) : string :=
  string_of_list_ascii
    (sub_group1 g t (length (list_ascii_of_string s))
       (list_ascii_of_string s)).

End Re.

Import Re.

(** [cls{n}], [cls{m,n}], [cls*] and a single literal. *)
Definition exactly (c : cclass) (n : nat) : atom := Atom c n (Upto n).
Definition between (c : cclass) (m n : nat) : atom := Atom c m (Upto n).
Definition star (c : cclass) : atom := Atom c 0 Unbounded.
Definition lit (a : ascii) : atom := exactly (Lit a) 1.

(** ** datetime values

    The part of Python's [datetime] that the extractor uses: a calendar date
    and time of day with an optional UTC offset, and the subtraction of two
    of them. *)

Module Datetime.

Record datetime : Type := mk_datetime {
  year : Z; month : Z; day : Z;
  hour : Z; minute : Z; second : Z; microsecond : Z;
  utcoffset : option Z   (* tzinfo: offset from UTC in microseconds;
                            [None] for a naive datetime *)
}.

Definition is_leap (y : Z) : bool :=
  (y mod 4 =? 0) && (negb (y mod 100 =? 0) || (y mod 400 =? 0)).

Definition days_before_year (y : Z) : Z :=
  let y1 := y - 1 in y1 * 365 + y1 / 4 - y1 / 100 + y1 / 400.

Definition days_in_month (y m : Z) : Z :=
  if m =? 2 then (if is_leap y then 29 else 28)
  else if (m =? 4) || (m =? 6) || (m =? 9) || (m =? 11) then 30
  else 31.

Fixpoint days_before_month_aux (y : Z) (n : nat) : Z :=
  match n with
  | O => 0
  | S n' => days_before_month_aux y n' + days_in_month y (Z.of_nat n)
  end.

Definition days_before_month (y m : Z) : Z :=
  days_before_month_aux y (Z.to_nat (m - 1)).

(** [date.toordinal]: 1 is 0001-01-01. *)
Definition toordinal (d : datetime) : Z :=
  days_before_year (year d) + days_before_month (year d) (month d) + day d.

(** Microseconds since the start of day 0, on the datetime's own clock. *)
Definition wall_us (d : datetime) : Z :=
  (((toordinal d * 24 + hour d) * 60 + minute d) * 60 + second d) * 1000000
  + microsecond d.

(** A [timedelta], in microseconds. *)
Definition timedelta := Z.

(** [a - b] for two datetimes: both naive, or both aware, in which case
    each is first moved to UTC; one of each raises [TypeError]. *)
Definition datetime_sub (a b : datetime) : result timedelta :=
  match utcoffset a, utcoffset b with
  | None, None => Return (wall_us a - wall_us b)
  | Some oa, Some ob =>
      Return ((wall_us a - oa) - (wall_us b - ob))
  | _, _ => Raise TypeError
  end.

(** [a - b] where either operand may be [None], which supports no [-]. *)
Definition py_sub (a b : option datetime) : result timedelta :=
  match a, b with
  | Some x, Some y => datetime_sub x y
  | _, _ => Raise TypeError
  end.

(** [n / d] rounded to the nearest integer, ties to the even one, for
    [0 <= n] and [0 < d]. *)
Definition round_half_even (n d : Z) : Z :=
  let q := n / d in
  let r := n mod d in
  if 2 * r <? d then q
  else if d <? 2 * r then q + 1
  else if Z.even q then q else q + 1.

(** Python's [n / d] on two positive integers: the float nearest to the
    quotient, ties to even, given as [(m, e)] for the float [m * 2**e]
    with a mantissa [m] of 53 bits.  The exponent is not bounded here; the
    quotients of this module are far inside the range of a double. *)
Definition true_divide (n d : Z) : Z * Z :=
  let scaled (e : Z) : Z * Z :=
    if e <? 0 then (n * 2 ^ (- e), d) else (n, d * 2 ^ e) in
  let e0 := Z.log2 n - Z.log2 d - 52 in
  let e := if fst (scaled e0) <? snd (scaled e0) * 2 ^ 52
           then e0 - 1 else e0 in
  (round_half_even (fst (scaled e)) (snd (scaled e)), e).

(** [float.__floor__] of the float [m * 2**e]. *)
Definition float_floor (m e : Z) : Z :=
  if e <? 0 then m / 2 ^ (- e) else m * 2 ^ e.

(** [td.total_seconds().__floor__()]: [total_seconds] is the float
    [microseconds / 10**6], and [__floor__] is the floor of that float. *)
Definition total_seconds_floor (td : timedelta) : Z :=
  if td =? 0 then 0
  else
    let '(m, e) := true_divide (Z.abs td) 1000000 in
    float_floor (Z.sgn td * m) e.

End Datetime.

Import Datetime.

(** ** [_parse_datetime] (europa.py, lines 19-41) *)

Definition datetime_format_with_microseconds : string :=
  "%Y-%m-%dT%H:%M:%S.%f%z".
Definition datetime_format_without_microseconds : string :=
  "%Y-%m-%dT%H:%M:%S%z".

(** [\d{4}-\d{2}-\d{2}T\d{2}:\d{2}:\d{2}], the start of both pre-checks. *)
Definition date_time_regex : regex :=
  [ exactly Digit 4; lit "-"; exactly Digit 2; lit "-"; exactly Digit 2;
    lit "T";
    exactly Digit 2; lit ":"; exactly Digit 2; lit ":"; exactly Digit 2 ].

(** [[+-]\d{2}:\d{2}], the end of both pre-checks. *)
Definition offset_regex : regex :=
  [ exactly (AnyOf ["+"; "-"]%char) 1; exactly Digit 2; lit ":";
    exactly Digit 2 ].

(** [\d{4}-\d{2}-\d{2}T\d{2}:\d{2}:\d{2}\.\d{1,7}[+-]\d{2}:\d{2}] *)
Definition datetime_regex_with_microseconds : regex :=
  date_time_regex ++ [ lit "."; between Digit 1 7 ] ++ offset_regex.

(** [\d{4}-\d{2}-\d{2}T\d{2}:\d{2}:\d{2}[+-]\d{2}:\d{2}] *)
Definition datetime_regex_without_microseconds : regex :=
  date_time_regex ++ offset_regex.

(** [(\.\d{6})\d*]: group 1 and what follows it. *)
Definition pattern_group1 : regex := [ lit "."; exactly Digit 6 ].
Definition pattern_rest : regex := [ star Digit ].

(** What a [try: return e / except ValueError: pass] block does with [e]. *)
Inductive attempt (A : Type) : Type :=
| Returned (a : A)     (* the [return] was reached *)
| Passed               (* [ValueError] was caught *)
| Escaped (e : exn).   (* another exception leaves the block *)
Arguments Returned {A} a.
Arguments Passed {A}.
Arguments Escaped {A} e.

Definition try_return {A} (c : result A) : attempt A :=
  match c with
  | Return a => Returned a
  | Raise ValueError => Passed
  | Raise e => Escaped e
  end.

Section ParseDatetime.

(** [datetime_from_str(date_str, format=...)] of yt_dlp/utils, which is
    not part of this file: a string and a format go in, a datetime comes
    out or an exception is raised. *)
Variable datetime_from_str : string -> string -> result datetime.

Definition _parse_datetime (datetime_str : string)
  : result (option datetime) :=
  let '(first, datetime_str) :=
    if re_match datetime_regex_with_microseconds datetime_str then
      let datetime_str :=
        re_sub_group1 pattern_group1 pattern_rest datetime_str in
      (try_return
         (datetime_from_str datetime_str datetime_format_with_microseconds),
       datetime_str)
    else (Passed, datetime_str) in
  match first with
  | Returned d => Return (Some d)
  | Escaped e => Raise e
  | Passed =>
      if re_match datetime_regex_without_microseconds datetime_str then
        match
          try_return
            (datetime_from_str datetime_str
               datetime_format_without_microseconds)
        with
        | Returned d => Return (Some d)
        | Escaped e => Raise e
        | Passed => Return None
        end
      else Return None
  end.

(** [_parse_datetime(traverse_obj(json_info, key))]: the value read from
    the meeting record is a string or [None], and [re.match] raises
    [TypeError] on [None]. *)
Definition _parse_datetime_value (v : option string)
  : result (option datetime) :=
  match v with
  | Some s => _parse_datetime s
  | None => Raise TypeError
  end.

(** Lines 190-192 of [EuroParlWebstreamIE._real_extract]. *)
Definition video_duration (startDateTime endDateTime : option string)
  : result Z :=
  start_actual ← _parse_datetime_value startDateTime;
  end_actual ← _parse_datetime_value endDateTime;
  td ← py_sub end_actual start_actual;
  mret (total_seconds_floor td).

End ParseDatetime.

(** ** A parsing helper with fixed-width fields

    The theorems on [_parse_datetime] hold for every parsing helper; the
    one below serves where a concrete helper is needed. *)

Module Helper.

Definition digit_value (a : ascii) : Z := Z.of_nat (nat_of_ascii a) - 48.

(** Reads exactly [n] digits. *)
Fixpoint read_digits (n : nat) (acc : Z) (s : list ascii)
  : option (Z * list ascii) :=
  match n with
  | O => Some (acc, s)
  | S n' =>
      match s with
      | a :: s' =>
          if is_digit a then read_digits n' (10 * acc + digit_value a) s'
          else None
      | [] => None
      end
  end.

(** Reads at most [n] further digits of a fraction, scaling as it goes. *)
Fixpoint read_fraction (n : nat) (acc : Z) (s : list ascii)
  : Z * list ascii :=
  match n with
  | O => (acc, s)
  | S n' =>
      match s with
      | a :: s' =>
          if is_digit a then read_fraction n' (acc + digit_value a * 10 ^ Z.of_nat n') s'
          else (acc, s)
      | [] => (acc, s)
      end
  end.

Record fields : Type := mk_fields {
  fY : Z; fm : Z; fd : Z; fH : Z; fM : Z; fS : Z; ff : Z; fz : option Z
}.

Definition no_fields : fields := mk_fields 1900 1 1 0 0 0 0 None.

Definition read_directive (d : ascii) (acc : fields) (s : list ascii)
  : option (fields * list ascii) :=
  let two (set : Z -> fields) :=
    '(v, s') ← read_digits 2 0 s; Some (set v, s') in
  if Ascii.eqb d "Y" then
    '(v, s') ← read_digits 4 0 s;
    Some (mk_fields v (fm acc) (fd acc) (fH acc) (fM acc) (fS acc) (ff acc) (fz acc), s')
  else if Ascii.eqb d "m" then
    two (fun v => mk_fields (fY acc) v (fd acc) (fH acc) (fM acc) (fS acc) (ff acc) (fz acc))
  else if Ascii.eqb d "d" then
    two (fun v => mk_fields (fY acc) (fm acc) v (fH acc) (fM acc) (fS acc) (ff acc) (fz acc))
  else if Ascii.eqb d "H" then
    two (fun v => mk_fields (fY acc) (fm acc) (fd acc) v (fM acc) (fS acc) (ff acc) (fz acc))
  else if Ascii.eqb d "M" then
    two (fun v => mk_fields (fY acc) (fm acc) (fd acc) (fH acc) v (fS acc) (ff acc) (fz acc))
  else if Ascii.eqb d "S" then
    two (fun v => mk_fields (fY acc) (fm acc) (fd acc) (fH acc) (fM acc) v (ff acc) (fz acc))
  else if Ascii.eqb d "f" then
    match s with
    | a :: _ =>
        if is_digit a then
          let '(v, s') := read_fraction 6 0 s in
          Some (mk_fields (fY acc) (fm acc) (fd acc) (fH acc) (fM acc) (fS acc) v (fz acc), s')
        else None
    | [] => None
    end
  else if Ascii.eqb d "z" then
    match s with
    | sg :: s1 =>
        if existsb (Ascii.eqb sg) ["+"; "-"]%char then
          '(h, s2) ← read_digits 2 0 s1;
          match s2 with
          | c :: s3 =>
              if Ascii.eqb c ":" then
                '(m, s4) ← read_digits 2 0 s3;
                let off := (h * 3600 + m * 60) * 1000000 in
                if (m <=? 59) && (h <=? 23) then
                  Some (mk_fields (fY acc) (fm acc) (fd acc) (fH acc) (fM acc) (fS acc) (ff acc)
                          (Some (if Ascii.eqb sg "-" then - off else off)), s4)
                else None
              else None
          | [] => None
          end
        else None
    | [] => None
    end
  else None.

Fixpoint read_format (fmt : list ascii) (acc : fields) (s : list ascii)
  : option fields :=
  match fmt with
  | [] => match s with [] => Some acc | _ :: _ => None end
  | c :: fmt' =>
      if Ascii.eqb c "%" then
        match fmt' with
        | d :: fmt'' =>
            '(acc', s') ← read_directive d acc s;
            read_format fmt'' acc' s'
        | [] => None
        end
      else
        match s with
        | a :: s' => if Ascii.eqb a c then read_format fmt' acc s' else None
        | [] => None
        end
  end.

Definition valid_fields (f : fields) : bool :=
  (1 <=? fY f) && (1 <=? fm f) && (fm f <=? 12)
  && (1 <=? fd f) && (fd f <=? days_in_month (fY f) (fm f))
  && (fH f <=? 23) && (fM f <=? 59) && (fS f <=? 59).

(** Modelled from the spec: [datetime_from_str] (yt_dlp/utils, not under
    src/).  The spec (4.4) says of it that the string is "parsed with an
    explicit format string" and that "parsing throws" on a string the
    format does not fit.  This helper reads the directives of the two
    formats of this module with fixed-width fields ([%Y] four digits; [%m],
    [%d], [%H], [%M], [%S] two digits; [%f] one to six digits, padded on the
    right to microseconds; [%z] a sign, two digits, a colon, two digits),
    asks that the whole string be used and that the fields form a date, a
    time of day and an offset below 24 hours, and raises [ValueError]
    otherwise. *)
Definition datetime_from_str (date_str format : string) : result datetime :=
  match
    read_format (list_ascii_of_string format) no_fields
      (list_ascii_of_string date_str)
  with
  | Some f =>
      if valid_fields f then
        Return (mk_datetime (fY f) (fm f) (fd f) (fH f) (fM f) (fS f) (ff f) (fz f))
      else Raise ValueError
  | None => Raise ValueError
  end.

End Helper.

(** ** Vocabulary for the properties of the patterns *)

(** Every atom of the pattern is [cls{n}]. *)
Definition fixed (r : regex) : Prop :=
  Forall (fun a => hi a = Upto (lo a)) r.

(** [l] is matched by the fixed-width pattern [r] character by
    character, with nothing left over. *)
Fixpoint fits (r : regex) (l : list ascii) : bool :=
  match r with
  | [] => match l with [] => true | _ :: _ => false end
  | a :: r' =>
      (lo a <=? length l)%nat
      && forallb (cmem (cls a)) (take (lo a) l)
      && fits r' (drop (lo a) l)
  end.

(** A Python string given by its characters, and back. *)
Definition str (l : list ascii) : string := string_of_list_ascii l.
Definition chars (s : string) : list ascii := list_ascii_of_string s.

(** [re.sub(r"(\.\d{6})\d*", r"\1", _)] on the characters of a string. *)
Definition truncate_fraction (l : list ascii) : list ascii :=
  sub_group1 pattern_group1 pattern_rest (length l) l.

(** [l] begins with a UTC offset [[+-]\d{2}:\d{2}]. *)
Definition starts_with_offset (l : list ascii) : Prop :=
  is_Some (rmatch offset_regex l).

(** What follows the fraction does not start with a digit. *)
Definition no_digit_ahead (l : list ascii) : Prop :=
  match l with
  | [] => True
  | a :: _ => is_digit a = false
  end.

(** ** Helpers of yt_dlp/utils used by the extractors *)

Module Utils.

(** [str.isspace] on a code point below 256. *)
Definition py_space (a : ascii) : bool :=
  let n := nat_of_ascii a in
  ((9 <=? n) && (n <=? 13) || (28 <=? n) && (n <=? 32)
   || (n =? 133) || (n =? 160))%nat.

Fixpoint lstrip (l : list ascii) : list ascii :=
  match l with
  | a :: l' => if py_space a then lstrip l' else l
  | [] => []
  end.

(** [str.strip()] *)
Definition strip (s : string) : string :=
  string_of_list_ascii
    (reverse (lstrip (reverse (lstrip (list_ascii_of_string s))))).

(** Modelled from the spec: [orderedSet] (yt_dlp/utils, not under src/).
    The spec (3, LanguagePreference) has the sequence "deduplicated while
    preserving first-occurrence order": an element is kept where it
    first occurs and dropped where it occurs again. *)
Fixpoint orderedSet_from (seen l : list string) : list string :=
  match l with
  | [] => []
  | x :: l' =>
      if bool_decide (x ∈ seen) then orderedSet_from seen l'
      else x :: orderedSet_from (seen ++ [x]) l'
  end.

Definition orderedSet (l : list string) : list string :=
  orderedSet_from [] l.

(** [list.index]: the position of the first occurrence. *)
Fixpoint index (x : string) (l : list string) : option nat :=
  match l with
  | [] => None
  | y :: l' => if bool_decide (x = y) then Some O else S <$> index x l'
  end.

(** Modelled from the spec: [qualities] (yt_dlp/utils, not under src/).
    The spec (4.3) has it "assign each language code a rank equal to its
    position" in the list it is given, while "unlisted languages receive
    no rank / lowest": the rank of a listed code is its position, counted
    from 0, and the rank of any other value, [None] included, is -1, below
    every position. *)
Definition qualities (quality_ids : list string) (qid : option string) : Z :=
  match qid with
  | Some q =>
      match index q quality_ids with
      | Some i => Z.of_nat i
      | None => -1
      end
  | None => -1
  end.

End Utils.

Import Utils.

(** ** [EuropaIE._real_extract] (europa.py, lines 68-120) *)

Module Europa.

(** An [item] element of the playlist, as [get_item] reads it:
    [xpath_text(item, 'lg', default=None)] and
    [xpath_text(item, 'label', default=None)]. *)
Record item : Type := Item {
  item_lg : option string;
  item_label : option string
}.

(** A [file] element of the playlist: the texts of [./url], [./lg] and
    [./lglabel], each [None] when the element is missing. *)
Record file_ : Type := File {
  file_url : option string;
  file_lg : option string;
  file_lglabel : option string
}.

(** An entry of [formats]. *)
Record format : Type := Format {
  url : string;
  format_id : option string;
  format_note : option string;
  language_preference : Z
}.

(** Lines 75-79: the dict [items], filled item by item. *)
Definition add_item (items : gmap string string) (it : item)
  : gmap string string :=
  match item_lg it, item_label it with
  | Some lang, Some label =>
      if truthy (Some lang) && truthy (Some label)
      then <[lang := strip label]> items
      else items
  | _, _ => items
  end.

Definition collect_items (its : list item) : gmap string string :=
  foldl add_item ∅ its.

(** Lines 80-82: the first preference whose entry is truthy; falling off
    the loop returns [None]. *)
Fixpoint first_preferred (items : gmap string string)
    (preference : list string) : option string :=
  match preference with
  | [] => None
  | p :: preference' =>
      if truthy (items !! p) then items !! p
      else first_preferred items preference'
  end.

Definition get_item (its : list item) (preference : list string)
  : option string :=
  first_preferred (collect_items its) preference.

(** Line 85: [query.get('sitelang', ('en', ))[0]], where [sitelang] is the
    first value of that query parameter, if the URL has one. *)
Definition preferred_lang (sitelang : option string) : string :=
  default "en"%string sitelang.

(** Line 87. *)
Definition preferred_langs (sitelang : option string) : list string :=
  orderedSet [preferred_lang sitelang; "en"; "int"]%string.

(** Line 89: [get_item('title', preferred_langs) or video_id]. *)
Definition title (title_items : list item) (sitelang : option string)
    (video_id : string) : string :=
  or_else (get_item title_items (preferred_langs sitelang)) video_id.

(** Line 90. *)
Definition description (description_items : list item)
    (sitelang : option string) : option string :=
  get_item description_items (preferred_langs sitelang).

(** Line 96: [qualities(preferred_langs[::-1])]. *)
Definition language_preference_of (langs : list string)
  : option string -> Z :=
  qualities (reverse langs).

(** Lines 98-109: the loop over the [file] elements. *)
Fixpoint formats_loop (rank : option string -> Z) (files : list file_)
    (formats : list format) : list format :=
  match files with
  | [] => formats
  | f :: files' =>
      match file_url f with
      | Some (String c u) =>
          formats_loop rank files'
            (formats ++ [Format (String c u) (file_lg f) (file_lglabel f)
                           (rank (file_lg f))])
      | _ => formats_loop rank files' formats   (* [continue] *)
      end
  end.

Definition formats (sitelang : option string) (files : list file_)
  : list format :=
  formats_loop (language_preference_of (preferred_langs sitelang)) files [].

(** The format entry that line 104 makes of a [file] element. *)
Definition format_of (rank : option string -> Z) (f : file_) : format :=
  Format (or_else (file_url f) ""%string) (file_lg f) (file_lglabel f)
    (rank (file_lg f)).

End Europa.

(** ** [EuroParlWebstreamIE._real_extract] (europa.py, lines 175-219) *)

Module Webstream.

(** An entry of [json_info['meetingAudio']]: what [.get('trackIdentifier')]
    and [.get('language')] give, [None] for a null or a missing key. *)
Record audio : Type := Audio {
  trackIdentifier : option string;
  audio_language : option string
}.

(** What [json_info.get('meetingAudio', [])] gives: the default [[]]
    when the meeting record has no such key, [None] when the value of the
    key is a JSON null, and otherwise the value, an array of objects
    whose [trackIdentifier] and [language] are strings, null or missing. *)
Inductive meeting_audio : Type :=
| NoKey
| JsonNull
| AudioList (audios : list audio).

(** The loop of lines 197-199 over a list. *)
Fixpoint find_track (track_identifier : string) (audios : list audio)
  : option string :=
  match audios with
  | [] => None
  | a :: audios' =>
      if bool_decide (trackIdentifier a = Some track_identifier)
      then audio_language a
      else find_track track_identifier audios'
  end.

(** Lines 194-200.  [for audio in None] raises [TypeError]. *)
Definition _get_lang (meetingAudio : meeting_audio)
    (track_identifier : option string) : result (option string) :=
  match track_identifier with
  | None => Return None
  | Some t =>
      match meetingAudio with
      | NoKey => Return (find_track t [])
      | JsonNull => Raise TypeError
      | AudioList audios => Return (find_track t audios)
      end
  end.

(** A format dict made by the manifest expander; [language] is what
    [elem.get('language')] reads and [elem['language'] = ...] writes. *)
Record hls_format : Type := HlsFormat {
  hls_url : string;
  hls_format_id : option string;
  language : option string
}.

(** Modelled from the spec: the entries that [_merge_subtitles]
    (yt_dlp/extractor/common.py, not under src/) merges.  The spec (3) has
    a SubtitleEntry be a "language tag + URL". *)
Record subtitle : Type := Subtitle {
  sub_language : string;
  sub_url : string
}.

#[global] Instance subtitle_eq_dec : EqDecision subtitle.
Proof. solve_decision. Defined.

(** The format dicts live in a store: [fmt] and [formats] hold the same
    objects, and line 208 writes through them. *)
Abbreviation loc := nat (only parsing).
Abbreviation store := (gmap nat hls_format) (only parsing).

(** Modelled from the spec: [_merge_subtitles] (yt_dlp/extractor/common.py,
    not under src/).  The spec (3, 4.5) has later entries for a language
    "merged (union), never overwritten destructively", "additively (never
    replacing previously collected entries for the same language)": the
    entries already collected for a language stay, in their order, and
    the new entries that are not among them follow. *)
Definition merge_subtitle_items (old new : list subtitle) : list subtitle :=
  old ++ filter (fun e => e ∉ old) new.

Definition _merge_subtitles (subs target : gmap string (list subtitle))
  : gmap string (list subtitle) :=
  union_with (fun old new => Some (merge_subtitle_items old new)) target subs.

(** The variables of the loop of lines 202-209, and the exception that
    has left the loop, if one has: the variables are then as they were
    when it was raised. *)
Record state : Type := State {
  formats : list loc;
  subtitles : gmap string (list subtitle);
  heap : store;
  raised : option exn
}.

(** [elem['language'] = v] *)
Definition set_language (d : hls_format) (v : option string) : hls_format :=
  HlsFormat (hls_url d) (hls_format_id d) v.

(** What line 208 makes of a format dict: with a language that
    [_get_lang] returns the dict gets it, and when [_get_lang] raises
    the dict is not assigned to. *)
Definition resolved (meetingAudio : meeting_audio) (d : hls_format)
  : hls_format :=
  match _get_lang meetingAudio (language d) with
  | Return v => set_language d v
  | Raise _ => d
  end.

(** Lines 207-208: the loop over [fmt], up to its end or to the first
    exception. *)
Fixpoint resolve_languages (meetingAudio : meeting_audio) (h : store)
    (fmt : list loc) : store * option exn :=
  match fmt with
  | [] => (h, None)
  | elem :: fmt' =>
      match h !! elem with
      | Some d =>
          match _get_lang meetingAudio (language d) with
          | Return v =>
              resolve_languages meetingAudio
                (<[elem := set_language d v]> h) fmt'
          | Raise e => (h, Some e)
          end
      | None => resolve_languages meetingAudio h fmt'
      end
  end.

(** Lines 205-209 for one manifest, whose expansion is [(fmt, subs)];
    nothing runs once an exception has left the loop. *)
Definition manifest_step (meetingAudio : meeting_audio) (st : state)
    (expanded : list loc * gmap string (list subtitle)) : state :=
  let '(fmt, subs) := expanded in
  match raised st with
  | Some _ => st
  | None =>
      let formats := formats st ++ fmt in
      match resolve_languages meetingAudio (heap st) fmt with
      | (heap, None) =>
          State formats (_merge_subtitles subs (subtitles st)) heap None
      | (heap, Some e) => State formats (subtitles st) heap (Some e)
      end
  end.

(** Lines 202-209: [expansions] lists what the manifest expander returns
    for the manifests in turn, and [h] holds the dicts it made. *)
Definition assemble (meetingAudio : meeting_audio) (h : store)
    (expansions : list (list loc * gmap string (list subtitle))) : state :=
  foldl (manifest_step meetingAudio) (State [] ∅ h None) expansions.

(** The format dicts of the output record, read through the store. *)
Definition output_formats (st : state) : list (option hls_format) :=
  (fun l => heap st !! l) <$> formats st.

(** A JSON document. *)
#[local] Unset Elimination Schemes.
Inductive json : Type :=
| JNull
| JBool (b : bool)
| JNum (z : Z)
| JStr (s : string)
| JArr (l : list json)
| JObj (members : list (string * json)).
#[local] Set Elimination Schemes.

(** The members of a parsed object by name, where the last member of a
    name counts. *)
Fixpoint member (key : string) (members : list (string * json))
  : option json :=
  match members with
  | [] => None
  | (k, v) :: members' =>
      match member key members' with
      | Some v' => Some v'
      | None => if bool_decide (k = key) then Some v else None
      end
  end.

(** [obj.get(key)] where [obj] is a dict, and [None] where it is not:
    what a string key of a path selects.  [None] is [JNull]. *)
Definition dict_get (key : string) (obj : json) : json :=
  match obj with
  | JObj members => default JNull (member key members)
  | _ => JNull
  end.

(** A key of a path of [traverse_obj]: a string, or a tuple, which
    branches into the paths it holds. *)
#[local] Unset Elimination Schemes.
Inductive key : Type :=
| Key (name : string)
| Branch (alternatives : list (list key)).
#[local] Set Elimination Schemes.

(** The values that a key selects from a value: one for a string, and
    for a tuple those that its paths select, in the order of the paths. *)
Fixpoint apply_key (k : key) (obj : json) : list json :=
  match k with
  | Key name => [dict_get name obj]
  | Branch alternatives =>
      (fix branches (alternatives : list (list key)) : list json :=
         match alternatives with
         | [] => []
         | path :: alternatives' =>
             (fix walk (path : list key) (objs : list json) : list json :=
                match path with
                | [] => objs
                | k' :: path' => walk path' (flat_map (apply_key k') objs)
                end) path [obj]
             ++ branches alternatives'
         end) alternatives
  end.

(** The keys of a path are applied one after the other, each to every
    value that the keys before it have selected. *)
Definition apply_path (path : list key) (obj : json) : list json :=
  fold_left (fun objs k => flat_map (apply_key k) objs) path [obj].

(** A value that counts as a result: neither [None] nor [{}]. *)
Definition helpful (v : json) : bool :=
  match v with
  | JNull => false
  | JObj [] => false
  | _ => true
  end.

(** Modelled from the spec: [traverse_obj(obj, path, get_all=False)]
    (yt_dlp/utils, not under src/).  The spec (4.6) has it take "the first
    non-absent candidate in that fixed order"; a tuple inside a path is a
    branch, as line 203 relies on, whose path
    [((('meetingVideo'), ('meetingVideos', ...)), 'hlsUrl')] selects the
    [hlsUrl] of what either alternative of its first key selects. *)
Definition traverse_obj_first (obj : json) (path : list key) : option json :=
  List.find helpful (apply_path path obj).

(** Line 213 of the output record: the path
    [(('mediaItem', 'title'), ('title', ))] has two keys, both tuples. *)
Definition title (webpage_nextjs : json) : option json :=
  traverse_obj_first webpage_nextjs
    [ Branch [[Key "mediaItem"]; [Key "title"]]; Branch [[Key "title"]] ]%string.

End Webstream.

(** ** Sample timestamps *)

Definition ts_6_digits : string := "2022-09-14T09:00:00.123456+02:00".
Definition ts_7_digits : string := "2022-09-14T09:00:00.1234567+02:00".
Definition ts_9_digits : string := "2022-09-14T09:00:00.123456789+02:00".


(** ** Vocabulary for further properties *)

(** What [_parse_datetime] makes of the outcome of the one parse it
    attempts: the datetime, [None] for a [ValueError], and any other
    exception as it is. *)
Definition on_parse (r : result datetime) : result (option datetime) :=
  match r with
  | Return d => Return (Some d)
  | Raise ValueError => Return None
  | Raise e => Raise e
  end.

(** [\.\d{7}]: a dot with more digits behind it than [%f] reads. *)
Definition long_fraction : regex := [ lit "."; exactly Digit 7 ].

(** [long_fraction] matches nowhere in [l]. *)
Fixpoint no_long_fraction (l : list ascii) : bool :=
  match l with
  | [] => true
  | _ :: l' =>
      match rmatch long_fraction l with
      | Some _ => false
      | None => no_long_fraction l'
      end
  end.

(** [l] does not begin with a blank. *)
Definition no_space_ahead (l : list ascii) : Prop :=
  match l with
  | [] => True
  | a :: _ => Utils.py_space a = false
  end.

(** The item passes the test of line 78 and has the language [lang]: it
    sets [items[lang]]. *)
Definition sets_entry (lang : string) (it : Europa.item) : bool :=
  bool_decide (Europa.item_lg it = Some lang)
  && truthy (Europa.item_lg it) && truthy (Europa.item_label it).

(** The entry that such an item sets. *)
Definition entry_of (it : Europa.item) : string :=
  strip (or_else (Europa.item_label it) ""%string).

(** How many times the object [l] is in [ls]. *)
Definition occurrences (l : nat) (ls : list nat) : nat :=
  length (filter (fun x => x = l) ls).

(** A timestamp that [datetime_from_str] of yt_dlp/utils reads as a
    relative date: a date followed by a sign, a count and a unit. *)
Definition overflowing_timestamp : string :=
  "2022-09-14T09:00:00+02:00+9999999999day".

(** A parsing helper that fails with an exception that is no
    [ValueError].  On [overflowing_timestamp], [datetime_from_str] builds a
    [timedelta] of 9999999999 days, which raises [OverflowError] since a
    [timedelta] holds at most 999999999 days; this helper does so on that
    string and is [Helper.datetime_from_str] on every other. *)
Definition dfs_overflow (date_str format : string) : result datetime :=
  if String.eqb date_str overflowing_timestamp then Raise OverflowError
  else Helper.datetime_from_str date_str format.


(** * Properties *)

(** ** Sanity checks of the embedding *)

Example with_microseconds_7_digits :
  re_match datetime_regex_with_microseconds ts_7_digits = true.
Proof. reflexivity. Qed.

Example with_microseconds_9_digits :
  re_match datetime_regex_with_microseconds ts_9_digits = false.
Proof. reflexivity. Qed.

(** The substitution alone would cut nine digits down to six. *)
Example re_sub_9_digits :
  re_sub_group1 pattern_group1 pattern_rest ts_9_digits = ts_6_digits.
Proof. reflexivity. Qed.

Example parse_6_digits :
  _parse_datetime Helper.datetime_from_str ts_6_digits
  = Return (Some (mk_datetime 2022 9 14 9 0 0 123456 (Some 7200000000))).
Proof. vm_compute. reflexivity. Qed.

Example parse_7_digits :
  _parse_datetime Helper.datetime_from_str ts_7_digits
  = Return (Some (mk_datetime 2022 9 14 9 0 0 123456 (Some 7200000000))).
Proof. vm_compute. reflexivity. Qed.

Example parse_1_digit :
  _parse_datetime Helper.datetime_from_str "2022-09-14T09:00:00.5-01:30"
  = Return (Some (mk_datetime 2022 9 14 9 0 0 500000 (Some (-5400000000)))).
Proof. vm_compute. reflexivity. Qed.

(** A string that passes the pre-check and is no date. *)
Example parse_february_30 :
  _parse_datetime Helper.datetime_from_str "2022-02-30T09:00:00+02:00"
  = Return None.
Proof. vm_compute. reflexivity. Qed.

Example toordinal_2022_09_14 :
  toordinal (mk_datetime 2022 9 14 0 0 0 0 None) = 738412.
Proof. vm_compute. reflexivity. Qed.

Example video_duration_34 :
  video_duration Helper.datetime_from_str
    (Some "2022-09-14T09:00:00+00:00"%string)
    (Some "2022-09-14T09:00:34+00:00"%string)
  = Return 34.
Proof. vm_compute. reflexivity. Qed.

(** The two timestamps seen from different offsets are 34 seconds apart
    as well. *)
Example video_duration_offsets :
  video_duration Helper.datetime_from_str
    (Some "2022-09-14T11:00:00.9+02:00"%string)
    (Some "2022-09-14T09:00:35.1+00:00"%string)
  = Return 34.
Proof. vm_compute. reflexivity. Qed.

(** A timestamp that ends in [Z] passes neither pre-check. *)
Example video_duration_zulu :
  video_duration Helper.datetime_from_str
    (Some "2022-09-14T09:00:00Z"%string) (Some "2022-09-14T09:00:34Z"%string)
  = Raise TypeError.
Proof. vm_compute. reflexivity. Qed.

(** ** The matcher on patterns of fixed width *)

Lemma rep_exact c k n s :
  rep c k n n s =
  if (n <=? length s)%nat && forallb (cmem c) (take n s)
  then k (drop n s) else None.
Proof.
  revert s; induction n as [|n IH]; intros s; [reflexivity|].
  destruct s as [|a s]; [reflexivity|].
  cbn [rep Nat.pred take drop forallb length].
  rewrite IH. change (S n <=? S (length s))%nat with (n <=? length s)%nat.
  destruct (cmem c a); cbn [andb].
  - destruct ((n <=? length s)%nat && forallb (cmem c) (take n s));
      [destruct (k (drop n s))|]; reflexivity.
  - rewrite andb_false_r. reflexivity.
Qed.

Lemma rmatch_fixed_app r1 r2 l t :
  fixed r1 -> fits r1 l = true ->
  rmatch (r1 ++ r2) (l ++ t) = rmatch r2 t.
Proof.
  intros Hf; revert l; induction Hf as [|[c n h] r1 Ha Hf IH]; intros l Hl.
  - destruct l; [reflexivity|discriminate].
  - cbn in Ha; subst h. cbn [fits lo cls] in Hl.
    apply andb_prop in Hl as [Hl Hr]. apply andb_prop in Hl as [Hn Hc].
    apply Nat.leb_le in Hn.
    cbn [app rmatch fuel_of]. rewrite rep_exact.
    rewrite length_app, take_app_le, drop_app_le by lia.
    rewrite Hc, andb_true_r.
    replace (n <=? length l + length t)%nat with true
      by (symmetry; apply Nat.leb_le; lia).
    apply IH, Hr.
Qed.

Lemma rmatch_fixed_inv r1 r2 s rest :
  fixed r1 -> rmatch (r1 ++ r2) s = Some rest ->
  exists l t, s = l ++ t /\ fits r1 l = true /\ rmatch r2 t = Some rest.
Proof.
  intros Hf; revert s; induction Hf as [|[c n h] r1 Ha Hf IH]; intros s Hs.
  - exists [], s. auto.
  - cbn in Ha; subst h. cbn [app rmatch fuel_of] in Hs.
    rewrite rep_exact in Hs.
    destruct ((n <=? length s)%nat && forallb (cmem c) (take n s)) eqn:E;
      [|discriminate].
    apply andb_prop in E as [Hn Hc]. apply Nat.leb_le in Hn.
    destruct (IH _ Hs) as (l & t & Hd & Hl & Ht).
    exists (take n s ++ l), t. split; [|split; [|exact Ht]].
    + rewrite <- app_assoc, <- Hd. symmetry. apply take_drop.
    + assert (Hlen : length (take n s) = n) by (rewrite length_take; lia).
      cbn [fits lo cls].
      rewrite length_app, take_app_le, drop_app_le by lia.
      rewrite (take_ge (take n s) n), (drop_ge (take n s) n) by lia.
      cbn [app]. rewrite Hc, Hl.
      replace (n <=? length (take n s) + length l)%nat with true
        by (symmetry; apply Nat.leb_le; lia).
      reflexivity.
Qed.

(** A string that a fixed-width pattern fits has only characters of the
    pattern's classes. *)
Lemma fits_chars r l :
  fits r l = true ->
  Forall (fun a => existsb (fun at_ => cmem (cls at_) a) r = true) l.
Proof.
  revert l; induction r as [|a r IH]; intros l Hl.
  - destruct l; [constructor|discriminate].
  - cbn [fits] in Hl.
    apply andb_prop in Hl as [Hl Hr]. apply andb_prop in Hl as [_ Hc].
    rewrite <- (take_drop (lo a) l). apply Forall_app; split.
    + rewrite forallb_forall in Hc. apply Forall_forall.
      intros x Hx. apply list_elem_of_In in Hx.
      cbn [existsb]. rewrite (Hc x Hx). reflexivity.
    + eapply Forall_impl; [apply IH, Hr|].
      intros x Hx. cbn [existsb]. rewrite Hx. apply orb_true_r.
Qed.

(** ** Strings and their characters *)

Lemma chars_str l : chars (str l) = l.
Proof. apply list_ascii_of_string_of_list_ascii. Qed.

Lemma str_chars s : str (chars s) = s.
Proof. apply string_of_list_ascii_of_string. Qed.

Lemma re_match_str r l :
  re_match r (str l) = match rmatch r l with Some _ => true | None => false end.
Proof. unfold re_match. fold (chars (str l)). rewrite chars_str. reflexivity. Qed.

Lemma re_sub_str l :
  re_sub_group1 pattern_group1 pattern_rest (str l) = str (truncate_fraction l).
Proof.
  unfold re_sub_group1. fold (chars (str l)). rewrite chars_str. reflexivity.
Qed.

(** ** The repetitions of the three patterns *)

Lemma digit_not_sign a :
  is_digit a = true -> cmem (AnyOf ["+"; "-"]%char) a = false.
Proof.
  destruct a as [[] [] [] [] [] [] [] []]; intros H;
    first [reflexivity | discriminate H].
Qed.

Lemma digit_not_dot a : is_digit a = true -> a <> "."%char.
Proof. intros H ->. discriminate H. Qed.

Lemma offset_rejects_digit a s :
  is_digit a = true -> rmatch offset_regex (a :: s) = None.
Proof.
  intros H. cbn [offset_regex rmatch exactly fuel_of rep].
  rewrite (digit_not_sign a H). reflexivity.
Qed.

Lemma offset_rejects_nil : rmatch offset_regex [] = None.
Proof. reflexivity. Qed.

Lemma starts_with_offset_no_digit l :
  starts_with_offset l -> no_digit_ahead l.
Proof.
  intros [t Ht]. destruct l as [|a l]; [exact I|]. cbn.
  destruct (is_digit a) eqn:E; [|reflexivity].
  rewrite (offset_rejects_digit a l E) in Ht. discriminate.
Qed.

(** [\d{lo,fuel}] in front of a continuation that rejects a digit: the
    whole run of digits has to be taken, and it has to have a length
    between the two bounds. *)
Lemma rep_digits k fuel lo f z :
  (forall a s, is_digit a = true -> k (a :: s) = None) ->
  forallb is_digit f = true -> no_digit_ahead z ->
  rep Digit k fuel lo (f ++ z) =
  if (lo <=? length f)%nat && (length f <=? fuel)%nat then k z else None.
Proof.
  intros Hk. revert lo f. induction fuel as [|fuel IH]; intros lo f Hf Hz.
  - destruct f as [|a f].
    + cbn. destruct lo; reflexivity.
    + cbn in Hf. apply andb_prop in Hf as [Ha _].
      cbn [rep app length]. rewrite andb_false_r.
      destruct lo; [apply Hk, Ha|reflexivity].
  - destruct f as [|a f].
    + cbn [rep app length]. rewrite andb_true_r.
      destruct z as [|b z].
      * destruct lo; reflexivity.
      * cbn in Hz. cbn [cmem]. rewrite Hz. destruct lo; reflexivity.
    + cbn in Hf. apply andb_prop in Hf as [Ha Hf].
      cbn [rep app length cmem]. rewrite Ha, (IH _ _ Hf Hz).
      change (S (length f) <=? S fuel)%nat with (length f <=? fuel)%nat.
      assert (Hlo : (Nat.pred lo <=? length f)%nat = (lo <=? S (length f))%nat)
        by (destruct lo; reflexivity).
      rewrite Hlo.
      destruct ((lo <=? S (length f))%nat && (length f <=? fuel)%nat).
      * destruct (k z); [reflexivity|].
        destruct lo; [apply Hk, Ha|reflexivity].
      * destruct lo; [apply Hk, Ha|reflexivity].
  Qed.

(** [\d*] at the end of a pattern takes the whole run of digits. *)
Lemma rep_star_digits fuel f z :
  forallb is_digit f = true -> no_digit_ahead z ->
  (length f <= fuel)%nat ->
  rep Digit (rmatch []) fuel 0 (f ++ z) = Some z.
Proof.
  revert f. induction fuel as [|fuel IH]; intros f Hf Hz Hlen.
  - destruct f; [reflexivity|cbn in Hlen; lia].
  - destruct f as [|a f].
    + cbn [rep app]. destruct z as [|b z]; [reflexivity|].
      cbn in Hz. cbn [cmem]. rewrite Hz. reflexivity.
    + cbn in Hf. apply andb_prop in Hf as [Ha Hf]. cbn in Hlen.
      cbn [rep app cmem Nat.pred]. rewrite Ha, (IH f Hf Hz) by lia.
      reflexivity.
Qed.

(** The matcher returns a suffix of its input. *)
Lemma rep_shorter c k fuel lo s t :
  (forall s t, k s = Some t -> (length t <= length s)%nat) ->
  rep c k fuel lo s = Some t -> (length t <= length s)%nat.
Proof.
  intros Hk. revert lo s.
  induction fuel as [|fuel IH]; intros lo s H.
  - cbn in H. destruct lo; [eauto|discriminate].
  - cbn [rep] in H. destruct s as [|a s].
    + destruct lo; [eauto|discriminate].
    + destruct (cmem c a).
      * destruct (rep c k fuel (Nat.pred lo) s) eqn:E.
        -- injection H as <-. apply IH in E. cbn. lia.
        -- destruct lo; [eauto|discriminate].
      * destruct lo; [eauto|discriminate].
Qed.

Lemma rmatch_shorter r s t :
  rmatch r s = Some t -> (length t <= length s)%nat.
Proof.
  revert s t. induction r as [|[c n h] r IH]; intros s t H.
  - injection H as <-. lia.
  - cbn [rmatch] in H. eapply rep_shorter; [|exact H]. exact IH.
Qed.

(** ** The substitution [(\.\d{6})\d*] -> group 1 *)

Lemma date_time_regex_fixed : fixed date_time_regex.
Proof. repeat constructor. Qed.

Lemma pattern_group1_fixed : fixed pattern_group1.
Proof. repeat constructor. Qed.

Lemma group1_needs_dot a s :
  a <> "."%char -> rmatch pattern_group1 (a :: s) = None.
Proof.
  intros Ha. cbn [pattern_group1 rmatch lit exactly fuel_of rep cmem].
  destruct (Ascii.eqb_spec a "."); [contradiction|reflexivity].
Qed.

(** A match of group 1 is a dot and six digits. *)
Lemma group1_inv s after :
  rmatch pattern_group1 s = Some after ->
  exists d, s = "."%char :: d ++ after /\ length d = 6%nat
            /\ forallb is_digit d = true.
Proof.
  intros H. rewrite <- (app_nil_r pattern_group1) in H.
  destruct (rmatch_fixed_inv _ _ _ _ pattern_group1_fixed H)
    as (l & t & -> & Hl & Ht).
  injection Ht as ->.
  destruct l as [|a l]; [discriminate|].
  cbn in Hl.
  destruct (Ascii.eqb_spec a "."); [subst a|discriminate].
  rewrite take_0, drop_0 in Hl. cbn [forallb andb] in Hl.
  apply andb_prop in Hl as [Hl Hnil]. apply andb_prop in Hl as [Hlen Hd].
  change (6 <=? length l)%nat with
    (match length l with S (S (S (S (S (S _))))) => true | _ => false end)
    in *.
  assert (6 <= length l)%nat
    by (destruct l as [|? [|? [|? [|? [|? [|? ?]]]]]];
        first [discriminate Hlen | cbn; lia]).
  destruct (drop 6 l) eqn:E; [|discriminate].
  assert (Hl6 : length l = 6%nat).
  { apply (f_equal length) in E. rewrite length_drop in E. cbn in E. lia. }
  exists l. rewrite take_ge in Hd by lia. auto.
Qed.

Lemma group1_match d z :
  length d = 6%nat -> forallb is_digit d = true ->
  rmatch pattern_group1 ("."%char :: d ++ z) = Some z.
Proof.
  intros Hlen Hd. rewrite <- (app_nil_r pattern_group1).
  change ("."%char :: d ++ z) with (("."%char :: d) ++ z).
  rewrite rmatch_fixed_app; [reflexivity|exact pattern_group1_fixed|].
  cbn [fits pattern_group1 lit exactly lo cls length].
  change (drop 1 ("."%char :: d)) with (drop 0 d).
  change (take 1 ("."%char :: d)) with ("."%char :: take 0 d).
  rewrite take_0, drop_0, Hlen, take_ge, drop_ge by lia.
  change (cmem Digit) with is_digit. rewrite Hd. reflexivity.
Qed.

Lemma sub_group1_fuel f1 f2 s :
  (length s <= f1)%nat -> (length s <= f2)%nat ->
  sub_group1 pattern_group1 pattern_rest f1 s
  = sub_group1 pattern_group1 pattern_rest f2 s.
Proof.
  revert f2 s. induction f1 as [|f1 IH]; intros f2 s H1 H2.
  - destruct s; [|cbn in H1; lia]. destruct f2; reflexivity.
  - destruct s as [|a s]; [destruct f2; reflexivity|].
    destruct f2 as [|f2]; [cbn in H2; lia|].
    cbn in H1, H2. cbn [sub_group1].
    destruct (rmatch pattern_group1 (a :: s)) as [after|] eqn:Eg.
    + destruct (rmatch pattern_rest after) as [rest|] eqn:Er.
      * f_equal.
        destruct (group1_inv _ _ Eg) as (d & Hs & Hd & _).
        injection Hs as _ ->. apply rmatch_shorter in Er.
        rewrite length_app in H1, H2. apply IH; lia.
      * f_equal. apply IH; lia.
    + f_equal. apply IH; lia.
Qed.

(** No match starts before the first dot. *)
Lemma sub_group1_skip fuel p s :
  Forall (fun a => a <> "."%char) p ->
  sub_group1 pattern_group1 pattern_rest (length p + fuel) (p ++ s)
  = p ++ sub_group1 pattern_group1 pattern_rest fuel s.
Proof.
  induction 1 as [|a p Ha _ IH]; [reflexivity|].
  cbn [length Nat.add app sub_group1].
  rewrite (group1_needs_dot a _ Ha), IH. reflexivity.
Qed.

Lemma truncate_fraction_skip p s :
  Forall (fun a => a <> "."%char) p ->
  truncate_fraction (p ++ s) = p ++ truncate_fraction s.
Proof.
  intros Hp. unfold truncate_fraction.
  rewrite length_app. apply sub_group1_skip, Hp.
Qed.

Lemma truncate_fraction_no_dot z :
  Forall (fun a => a <> "."%char) z -> truncate_fraction z = z.
Proof.
  intros Hz. rewrite <- (app_nil_r z) at 1.
  rewrite (truncate_fraction_skip z [] Hz). apply app_nil_r.
Qed.

(** A dot and at least six digits: the seventh digit and those after it
    are dropped, and the substitution goes on behind them. *)
Lemma truncate_fraction_digits d f z :
  length d = 6%nat -> forallb is_digit d = true ->
  forallb is_digit f = true -> no_digit_ahead z ->
  truncate_fraction ("."%char :: d ++ f ++ z)
  = "."%char :: d ++ truncate_fraction z.
Proof.
  intros Hlen Hd Hf Hz. unfold truncate_fraction.
  cbn [length sub_group1].
  rewrite (group1_match d (f ++ z) Hlen Hd).
  cbn [pattern_rest star rmatch fuel_of].
  rewrite (rep_star_digits _ f z Hf Hz) by (rewrite length_app; lia).
  rewrite !length_app.
  replace (S (length d + (length f + length z)) - (length f + length z))%nat
    with (S (length d)) by lia.
  change ("."%char :: d ++ f ++ z) with (("."%char :: d) ++ f ++ z).
  rewrite take_app_length'; [|reflexivity].
  cbn [app]. do 2 f_equal.
  apply sub_group1_fuel; lia.
Qed.

(** A dot that is not followed by six digits stays, and so does what a
    matched dot leaves behind: the result begins with the dot. *)
Lemma truncate_fraction_dot s :
  exists t, truncate_fraction ("."%char :: s) = "."%char :: t.
Proof.
  unfold truncate_fraction. cbn [length sub_group1].
  destruct (rmatch pattern_group1 ("."%char :: s)) as [after|] eqn:Eg;
    [|eauto].
  destruct (rmatch pattern_rest after) as [rest|] eqn:Er; [|eauto].
  destruct (group1_inv _ _ Eg) as (d & Hs & Hd & _).
  injection Hs as ->. cbn [length]. rewrite length_app.
  replace (S (length d + length after) - length after)%nat
    with (S (length d)) by lia.
  cbn [take]. eauto.
Qed.

(** ** The two pre-checks *)

Lemma date_time_no_dot p :
  fits date_time_regex p = true -> Forall (fun a => a <> "."%char) p.
Proof.
  intros Hp. eapply Forall_impl; [apply fits_chars, Hp|].
  intros a Ha ->. discriminate Ha.
Qed.

Lemma rmatch_lit a r s : rmatch (lit a :: r) (a :: s) = rmatch r s.
Proof.
  cbn [rmatch lit exactly fuel_of rep cmem Nat.pred].
  rewrite Ascii.eqb_refl. destruct (rmatch r s); reflexivity.
Qed.

(** The pre-check with microseconds on a date and time, a dot, a run of
    digits and a rest that starts with no digit: the run has one to seven
    digits and the rest starts with an offset. *)
Lemma with_microseconds_shape p f z :
  fits date_time_regex p = true -> forallb is_digit f = true ->
  no_digit_ahead z ->
  rmatch datetime_regex_with_microseconds (p ++ "."%char :: f ++ z)
  = if (1 <=? length f)%nat && (length f <=? 7)%nat
    then rmatch offset_regex z else None.
Proof.
  intros Hp Hf Hz. unfold datetime_regex_with_microseconds.
  rewrite (rmatch_fixed_app _ _ _ _ date_time_regex_fixed Hp).
  cbn [app]. rewrite rmatch_lit.
  change (rmatch (between Digit 1 7 :: offset_regex) (f ++ z))
    with (rep Digit (rmatch offset_regex) 7 1 (f ++ z)).
  apply rep_digits; [apply offset_rejects_digit|exact Hf|exact Hz].
Qed.

(** The pre-check without microseconds fails on a dot after the seconds. *)
Lemma without_microseconds_dot p t :
  fits date_time_regex p = true ->
  rmatch datetime_regex_without_microseconds (p ++ "."%char :: t) = None.
Proof.
  intros Hp. unfold datetime_regex_without_microseconds.
  rewrite (rmatch_fixed_app _ _ _ _ date_time_regex_fixed Hp). reflexivity.
Qed.

Lemma with_microseconds_inv l rest :
  rmatch datetime_regex_with_microseconds l = Some rest ->
  exists p t, l = p ++ "."%char :: t /\ fits date_time_regex p = true.
Proof.
  intros H. unfold datetime_regex_with_microseconds in H.
  destruct (rmatch_fixed_inv _ _ _ _ date_time_regex_fixed H)
    as (p & t & -> & Hp & Ht).
  exists p. destruct t as [|a t]; [discriminate Ht|].
  cbn [app rmatch lit exactly fuel_of rep cmem] in Ht.
  destruct (Ascii.eqb_spec a "."); [subst a; eauto|discriminate Ht].
Qed.

(** After a successful pre-check with microseconds and the substitution,
    the pre-check without microseconds cannot succeed: the character
    after the seconds is still the dot. *)
Lemma without_after_with s :
  re_match datetime_regex_with_microseconds s = true ->
  re_match datetime_regex_without_microseconds
    (re_sub_group1 pattern_group1 pattern_rest s) = false.
Proof.
  rewrite <- (str_chars s), re_sub_str, !re_match_str.
  destruct (rmatch datetime_regex_with_microseconds (chars s)) as [rest|] eqn:E;
    [intros _|discriminate].
  destruct (with_microseconds_inv _ _ E) as (p & t & -> & Hp).
  rewrite (truncate_fraction_skip _ _ (date_time_no_dot _ Hp)).
  destruct (truncate_fraction_dot t) as [t' ->].
  rewrite (without_microseconds_dot _ _ Hp). reflexivity.
Qed.

(** ** [_parse_datetime] *)

Lemma parse_datetime_no_match dfs s :
  re_match datetime_regex_with_microseconds s = false ->
  re_match datetime_regex_without_microseconds s = false ->
  _parse_datetime dfs s = Return None.
Proof. intros H1 H2. unfold _parse_datetime. rewrite H1, H2. reflexivity. Qed.

Lemma parse_datetime_with dfs s :
  re_match datetime_regex_with_microseconds s = true ->
  _parse_datetime dfs s =
  match
    dfs (re_sub_group1 pattern_group1 pattern_rest s)
      datetime_format_with_microseconds
  with
  | Return d => Return (Some d)
  | Raise ValueError => Return None
  | Raise e => Raise e
  end.
Proof.
  intros H. unfold _parse_datetime. rewrite H.
  destruct (dfs _ _) as [d|[]]; cbn [try_return]; try reflexivity.
  rewrite (without_after_with s H). reflexivity.
Qed.

Lemma parse_datetime_without dfs s :
  re_match datetime_regex_with_microseconds s = false ->
  re_match datetime_regex_without_microseconds s = true ->
  _parse_datetime dfs s =
  match dfs s datetime_format_without_microseconds with
  | Return d => Return (Some d)
  | Raise ValueError => Return None
  | Raise e => Raise e
  end.
Proof.
  intros H1 H2. unfold _parse_datetime. rewrite H1, H2.
  destruct (dfs _ _) as [d|[]]; reflexivity.
Qed.

(** C2 (as amended).  When neither pre-check matches, [_parse_datetime]
    returns [None]; when a pre-check matches and the parse it guards
    raises [ValueError], the one exception that the handlers of lines 31
    and 37 catch, [_parse_datetime] returns [None] as well.  An exception
    of any other class that the guarded parse raises is not caught and
    leaves [_parse_datetime]: it raises on no string only with a parsing
    helper whose failures are all [ValueError]s. *)
Theorem parse_datetime_absent
    (dfs : string -> string -> result datetime) (s : string) :
  (re_match datetime_regex_with_microseconds s = false ->
   re_match datetime_regex_without_microseconds s = false ->
   _parse_datetime dfs s = Return None)
  /\ (re_match datetime_regex_with_microseconds s = true ->
      dfs (re_sub_group1 pattern_group1 pattern_rest s)
        datetime_format_with_microseconds = Raise ValueError ->
      _parse_datetime dfs s = Return None)
  /\ (re_match datetime_regex_with_microseconds s = false ->
      re_match datetime_regex_without_microseconds s = true ->
      dfs s datetime_format_without_microseconds = Raise ValueError ->
      _parse_datetime dfs s = Return None)
  /\ ((forall d fmt e, dfs d fmt = Raise e -> e = ValueError) ->
      exists v, _parse_datetime dfs s = Return v)
  /\ (forall e,
        re_match datetime_regex_with_microseconds s = true ->
        dfs (re_sub_group1 pattern_group1 pattern_rest s)
          datetime_format_with_microseconds = Raise e ->
        e <> ValueError ->
        _parse_datetime dfs s = Raise e)
  /\ (forall e,
        re_match datetime_regex_with_microseconds s = false ->
        re_match datetime_regex_without_microseconds s = true ->
        dfs s datetime_format_without_microseconds = Raise e ->
        e <> ValueError ->
        _parse_datetime dfs s = Raise e).
Proof.
  split; [apply parse_datetime_no_match|].
  split; [intros H E; rewrite (parse_datetime_with dfs s H), E; reflexivity|].
  split; [intros H1 H2 E;
          rewrite (parse_datetime_without dfs s H1 H2), E; reflexivity|].
  split; [|split].
  - intros Hdfs.
    destruct (re_match datetime_regex_with_microseconds s) eqn:H1.
    + rewrite (parse_datetime_with dfs s H1).
      destruct (dfs _ _) as [d|e] eqn:E; [eauto|].
      rewrite (Hdfs _ _ _ E). eauto.
    + destruct (re_match datetime_regex_without_microseconds s) eqn:H2.
      * rewrite (parse_datetime_without dfs s H1 H2).
        destruct (dfs _ _) as [d|e] eqn:E; [eauto|].
        rewrite (Hdfs _ _ _ E). eauto.
      * rewrite (parse_datetime_no_match dfs s H1 H2). eauto.
  - intros e H E He. rewrite (parse_datetime_with dfs s H), E.
    destruct e; first [contradiction|reflexivity].
  - intros e H1 H2 E He. rewrite (parse_datetime_without dfs s H1 H2), E.
    destruct e; first [contradiction|reflexivity].
Qed.

Lemma helper_raises_ValueError d fmt e :
  Helper.datetime_from_str d fmt = Raise e -> e = ValueError.
Proof.
  unfold Helper.datetime_from_str.
  destruct (Helper.read_format _ _ _) as [f|]; [|congruence].
  destruct (Helper.valid_fields f); congruence.
Qed.

(** A parse that returns [None] on either side makes the subtraction of
    line 192 raise [TypeError]. *)
Lemma video_duration_of_None dfs s e v :
  (_parse_datetime_value dfs s = Return None
   /\ _parse_datetime_value dfs e = Return v)
  \/ (_parse_datetime_value dfs s = Return v
      /\ _parse_datetime_value dfs e = Return None) ->
  video_duration dfs s e = Raise TypeError.
Proof.
  unfold video_duration.
  intros [[-> ->]|[-> ->]]; cbn; [destruct v|]; reflexivity.
Qed.

(** When both timestamps parse to datetimes that can be subtracted, the
    duration is the floor of the difference in seconds. *)
Lemma video_duration_parsed dfs s e a b td :
  _parse_datetime_value dfs s = Return (Some a) ->
  _parse_datetime_value dfs e = Return (Some b) ->
  datetime_sub b a = Return td ->
  video_duration dfs s e = Return (total_seconds_floor td).
Proof.
  intros Hs He Hsub. unfold video_duration. rewrite Hs, He. cbn.
  rewrite Hsub. reflexivity.
Qed.

(** C3 (the code at a failing input).  With an end timestamp that does
    not parse, ["not-a-date"], the duration is not an absent value: the
    computation of lines 190-192 raises, whatever the start timestamp and
    the parsing helper are, and it raises [TypeError] as soon as the parse
    of the start timestamp returns. *)
Theorem video_duration_malformed_end
    (dfs : string -> string -> result datetime)
    (startDateTime : option string) :
  (exists e,
     video_duration dfs startDateTime (Some "not-a-date"%string) = Raise e)
  /\ (forall v,
        _parse_datetime_value dfs startDateTime = Return v ->
        video_duration dfs startDateTime (Some "not-a-date"%string)
        = Raise TypeError).
Proof.
  assert (Hend : _parse_datetime_value dfs (Some "not-a-date"%string)
                 = Return None) by reflexivity.
  assert (H2 : forall v,
             _parse_datetime_value dfs startDateTime = Return v ->
             video_duration dfs startDateTime (Some "not-a-date"%string)
             = Raise TypeError).
  { intros v Hv. unfold video_duration. rewrite Hv, Hend. cbn.
    destruct v; reflexivity. }
  split; [|exact H2].
  destruct (_parse_datetime_value dfs startDateTime) as [v|e] eqn:E.
  - exists TypeError. eauto.
  - exists e. unfold video_duration. rewrite E. reflexivity.
Qed.

(** C1 (counterexample).  The spec's own timestamp with nine fractional
    digits does not pass the pre-check with microseconds, and it parses to
    [None] while the timestamp with the first six of them parses to an
    instant. *)
Lemma nine_fraction_digits_unmatched :
  re_match datetime_regex_with_microseconds
    "2022-09-14T09:00:00.123456789+02:00" = false
  /\ _parse_datetime Helper.datetime_from_str "2022-09-14T09:00:00.123456789+02:00"
     = Return None
  /\ _parse_datetime Helper.datetime_from_str "2022-09-14T09:00:00.123456+02:00"
     = Return (Some (mk_datetime 2022 9 14 9 0 0 123456 (Some 7200000000))).
Proof. repeat split; vm_compute; reflexivity. Qed.

Lemma parse_datetime_absent_witness :
  _parse_datetime Helper.datetime_from_str "not-a-date" = Return None
  /\ _parse_datetime Helper.datetime_from_str "2022-02-30T09:00:00.5+02:00"
     = Return None
  /\ _parse_datetime Helper.datetime_from_str "2022-02-30T09:00:00+02:00"
     = Return None
  /\ (exists v,
        _parse_datetime Helper.datetime_from_str "2022-09-14T09:00:00+02:00"
        = Return v)
  /\ _parse_datetime dfs_overflow overflowing_timestamp
     = Raise OverflowError.
Proof.
  split; [|split; [|split; [|split]]].
  - apply (proj1 (parse_datetime_absent Helper.datetime_from_str
                    "not-a-date"));
      reflexivity.
  - apply (proj1 (proj2 (parse_datetime_absent Helper.datetime_from_str
                           "2022-02-30T09:00:00.5+02:00")));
      reflexivity.
  - apply (proj1 (proj2 (proj2 (parse_datetime_absent Helper.datetime_from_str
                                  "2022-02-30T09:00:00+02:00"))));
      reflexivity.
  - apply (proj1 (proj2 (proj2 (proj2
             (parse_datetime_absent Helper.datetime_from_str
                "2022-09-14T09:00:00+02:00"))))).
    exact helper_raises_ValueError.
  - apply (proj2 (proj2 (proj2 (proj2 (proj2
             (parse_datetime_absent dfs_overflow overflowing_timestamp))))));
      [reflexivity|reflexivity|reflexivity|discriminate].
Defined.

(** C2 (counterexample).  A timestamp with a day count behind its offset
    passes the pre-check without microseconds; its parse raises
    [OverflowError], and so does [_parse_datetime]. *)
Lemma parse_datetime_overflow_escapes :
  re_match datetime_regex_with_microseconds overflowing_timestamp = false
  /\ re_match datetime_regex_without_microseconds overflowing_timestamp = true
  /\ dfs_overflow overflowing_timestamp datetime_format_without_microseconds
     = Raise OverflowError
  /\ _parse_datetime dfs_overflow overflowing_timestamp
     = Raise OverflowError.
Proof. repeat split; vm_compute; reflexivity. Qed.

Lemma video_duration_malformed_end_witness :
  video_duration Helper.datetime_from_str
    (Some "2022-09-14T09:00:00+02:00"%string) (Some "not-a-date"%string)
  = Raise TypeError.
Proof.
  apply (proj2 (video_duration_malformed_end Helper.datetime_from_str
                  (Some "2022-09-14T09:00:00+02:00"%string))
           (Some (mk_datetime 2022 9 14 9 0 0 0 (Some 7200000000)))).
  reflexivity.
Defined.

(** ** The field resolver of [EuropaIE] *)

Import Europa.

Example ex_strip : strip "  TRADE - Wikileaks on TTIP "%string
                   = "TRADE - Wikileaks on TTIP"%string.
Proof. reflexivity. Qed.

Example ex_get_item :
  get_item [Item (Some "fr") (Some "Titre"); Item (Some "int") (Some " Title ");
            Item (Some "en") None; Item (Some "") (Some "x")]%string
    (preferred_langs (Some "en"%string)) = Some "Title"%string.
Proof. vm_compute. reflexivity. Qed.

(** A label of blanks passes the test of line 78 and is stored stripped,
    as the empty string, which the resolver then passes over. *)
Example ex_get_item_blank :
  get_item [Item (Some "en") (Some "Title"); Item (Some "en") (Some "  ")]%string
    ["en"; "int"]%string = None.
Proof. vm_compute. reflexivity. Qed.

Lemma truthy_Some_ne (v : string) : v <> ""%string -> truthy (Some v) = true.
Proof. destruct v; [congruence|reflexivity]. Qed.

Lemma truthy_inv (o : option string) :
  truthy o = true -> exists c s, o = Some (String c s).
Proof. destruct o as [[|c s]|]; try discriminate. eauto. Qed.

Lemma or_else_truthy (o : option string) (v d : string) :
  o = Some v -> v <> ""%string -> or_else o d = v.
Proof. intros -> Hv. destruct v; [congruence|reflexivity]. Qed.

(** The item that sets an entry of [items] last is the one that counts,
    and an item without a language or a label sets nothing. *)
Lemma collect_items_snoc its it :
  collect_items (its ++ [it]) = add_item (collect_items its) it.
Proof. unfold collect_items. rewrite foldl_app. reflexivity. Qed.

Lemma add_item_lookup items it lang :
  add_item items it !! lang =
  match item_lg it, item_label it with
  | Some l, Some label =>
      if truthy (Some l) && truthy (Some label) && bool_decide (l = lang)
      then Some (strip label) else items !! lang
  | _, _ => items !! lang
  end.
Proof.
  unfold add_item.
  destruct (item_lg it) as [l|], (item_label it) as [label|]; try reflexivity.
  destruct (truthy (Some l) && truthy (Some label)); [|reflexivity].
  cbn [andb]. case_bool_decide as E.
  - subst. apply lookup_insert_eq.
  - apply lookup_insert_ne, E.
Qed.

(** The loop of lines 80-82 on a mapping: the entry of the first
    language of the list whose entry is present and not empty. *)
Lemma first_preferred_first
    (items : gmap string string) (preference : list string)
    (default : string) :
  (forall (i : nat) (p v : string),
      preference !! i = Some p ->
      items !! p = Some v -> v <> ""%string ->
      (forall (j : nat) (q : string),
          (j < i)%nat -> preference !! j = Some q ->
          truthy (items !! q) = false) ->
      first_preferred items preference = Some v
      /\ or_else (first_preferred items preference) default = v)
  /\ ((forall p, p ∈ preference -> truthy (items !! p) = false) ->
      first_preferred items preference = None
      /\ or_else (first_preferred items preference) default = default).
Proof.
  split.
  - intros i p v Hi Hp Hv Hbefore.
    assert (H : first_preferred items preference = Some v).
    { revert i Hi Hbefore.
      induction preference as [|q preference IH]; intros i Hi Hbefore;
        [discriminate Hi|].
      destruct i as [|i]; cbn [first_preferred].
      - injection Hi as ->. rewrite Hp, (truthy_Some_ne v Hv). reflexivity.
      - rewrite (Hbefore O q) by (cbn; first [lia|reflexivity]).
        apply (IH i Hi). intros j q' Hj Hq'.
        apply (Hbefore (S j) q'); [lia|exact Hq']. }
    split; [exact H|]. apply or_else_truthy; assumption.
  - intros Hnone.
    assert (H : first_preferred items preference = None).
    { induction preference as [|q preference IH]; [reflexivity|].
      cbn [first_preferred]. rewrite (Hnone q) by apply list_elem_of_here.
      apply IH. intros p Hp. apply Hnone, list_elem_of_further, Hp. }
    rewrite H. split; reflexivity.
Qed.

(** ** The preference list and the preference rank *)

Example ex_langs_default : preferred_langs None = ["en"; "int"]%string.
Proof. reflexivity. Qed.
Example ex_langs_fr : preferred_langs (Some "fr"%string) = ["fr"; "en"; "int"]%string.
Proof. reflexivity. Qed.
Example ex_rank_fr :
  language_preference_of (preferred_langs (Some "fr"%string))
    <$> [Some "fr"; Some "en"; Some "int"; Some "de"; None]%string
  = [2; 1; 0; -1; -1].
Proof. reflexivity. Qed.

Lemma orderedSet_from_elem seen l x :
  x ∈ orderedSet_from seen l <-> x ∈ l /\ x ∉ seen.
Proof.
  revert seen. induction l as [|y l IH]; intros seen; cbn [orderedSet_from].
  - split; [intros H; inversion H|intros [H _]; inversion H].
  - case_bool_decide as Hy.
    + rewrite IH, elem_of_cons. split; [tauto|].
      intros [[->|H] Hn]; [contradiction|tauto].
    + rewrite elem_of_cons, IH, elem_of_cons, elem_of_app,
        list_elem_of_singleton.
      split.
      * intros [->|[H Hn]]; tauto.
      * intros [[->|H] Hn]; [tauto|].
        destruct (decide (x = y)); tauto.
Qed.

Lemma orderedSet_from_NoDup seen l : NoDup (orderedSet_from seen l).
Proof.
  revert seen. induction l as [|y l IH]; intros seen; cbn [orderedSet_from].
  - constructor.
  - case_bool_decide as Hy; [apply IH|].
    constructor; [|apply IH].
    rewrite orderedSet_from_elem, elem_of_app, list_elem_of_singleton.
    tauto.
Qed.

Lemma orderedSet_NoDup l : NoDup (orderedSet l).
Proof. apply orderedSet_from_NoDup. Qed.

Lemma orderedSet_elem l x : x ∈ orderedSet l <-> x ∈ l.
Proof.
  unfold orderedSet. rewrite orderedSet_from_elem.
  split; [tauto|]. intros H. split; [exact H|]. intros H'. inversion H'.
Qed.

Lemma preferred_langs_NoDup sitelang : NoDup (preferred_langs sitelang).
Proof. apply orderedSet_NoDup. Qed.

(** [list.index] on a list without duplicates is the position. *)
Lemma index_lookup (l : list string) (i : nat) (x : string) :
  NoDup l -> l !! i = Some x -> index x l = Some i.
Proof.
  intros Hnd. revert i. induction Hnd as [|y l Hy Hnd IH]; intros i Hi;
    [discriminate Hi|].
  cbn [index]. destruct i as [|i].
  - injection Hi as ->. rewrite bool_decide_eq_true_2 by reflexivity.
    reflexivity.
  - cbn in Hi. rewrite bool_decide_eq_false_2.
    + rewrite (IH i Hi). reflexivity.
    + intros ->. apply Hy. eapply list_elem_of_lookup_2, Hi.
Qed.

Lemma index_None (l : list string) (x : string) : x ∉ l -> index x l = None.
Proof.
  induction l as [|y l IH]; intros Hx; [reflexivity|].
  cbn [index]. rewrite not_elem_of_cons in Hx. destruct Hx as [Hxy Hx].
  rewrite bool_decide_eq_false_2 by exact Hxy. rewrite (IH Hx). reflexivity.
Qed.

Lemma language_preference_listed (langs : list string) i p :
  NoDup langs -> langs !! i = Some p ->
  language_preference_of langs (Some p)
  = Z.of_nat (length langs - S i).
Proof.
  intros Hnd Hi. unfold language_preference_of, qualities.
  pose proof (lookup_lt_Some _ _ _ Hi) as Hlt.
  rewrite (index_lookup (reverse langs) (length langs - S i) p);
    [reflexivity|rewrite reverse_Permutation; exact Hnd|].
  rewrite reverse_lookup by lia.
  replace (length langs - S (length langs - S i))%nat with i by lia.
  exact Hi.
Qed.

Lemma language_preference_unlisted (langs : list string) l :
  l ∉ langs -> language_preference_of langs (Some l) = -1.
Proof.
  intros Hl. unfold language_preference_of, qualities.
  rewrite index_None; [reflexivity|]. rewrite elem_of_reverse. exact Hl.
Qed.

(** C5.  The rank function built from the reversed preference list, for a
    preference list without duplicates (as [orderedSet] makes it): a
    language earlier in the list has a strictly higher rank than a later
    one, every listed language has a strictly higher rank than an unlisted
    one, whose rank is -1, and the first language of the list has the
    highest rank of all. *)
Theorem language_preference_strict (langs : list string) :
  NoDup langs ->
  (forall (i j : nat) (p q : string),
      langs !! i = Some p -> langs !! j = Some q -> (i < j)%nat ->
      language_preference_of langs (Some q)
      < language_preference_of langs (Some p))
  /\ (forall p l : string,
        p ∈ langs -> l ∉ langs ->
        language_preference_of langs (Some l) = -1
        /\ language_preference_of langs (Some l)
           < language_preference_of langs (Some p))
  /\ (forall (p : string) (l : option string),
        langs !! 0%nat = Some p ->
        language_preference_of langs l
        <= language_preference_of langs (Some p)).
Proof.
  intros Hnd. split; [|split].
  - intros i j p q Hi Hj Hlt.
    rewrite (language_preference_listed langs i p Hnd Hi),
      (language_preference_listed langs j q Hnd Hj).
    pose proof (lookup_lt_Some _ _ _ Hj). lia.
  - intros p l Hp Hl.
    apply list_elem_of_lookup in Hp as [i Hi].
    rewrite (language_preference_listed langs i p Hnd Hi),
      (language_preference_unlisted langs l Hl).
    split; [reflexivity|lia].
  - intros p l Hp.
    rewrite (language_preference_listed langs 0 p Hnd Hp).
    destruct l as [l|]; [|cbn; lia].
    destruct (decide (l ∈ langs)) as [Hl|Hl].
    + apply list_elem_of_lookup in Hl as [i Hi].
      rewrite (language_preference_listed langs i l Hnd Hi). lia.
    + rewrite (language_preference_unlisted langs l Hl). lia.
Qed.

Lemma language_preference_strict_witness :
  language_preference_of ["en"; "fr"]%string (Some "fr"%string)
  < language_preference_of ["en"; "fr"]%string (Some "en"%string)
  /\ language_preference_of ["en"; "fr"]%string (Some "de"%string)
     < language_preference_of ["en"; "fr"]%string (Some "fr"%string).
Proof.
  assert (Hnd : NoDup ["en"; "fr"]%string)
    by (apply (bool_decide_unpack _); vm_compute; exact I).
  destruct (language_preference_strict ["en"; "fr"]%string Hnd)
    as (H1 & H2 & _).
  split.
  - apply (H1 0%nat 1%nat "en"%string "fr"%string);
      [reflexivity|reflexivity|lia].
  - apply (H2 "fr"%string "de"%string).
    + apply (bool_decide_unpack _). vm_compute. exact I.
    + apply (bool_decide_unpack _). vm_compute. exact I.
Defined.

Lemma preferred_langs_cases sitelang :
  preferred_langs sitelang =
  let l := preferred_lang sitelang in
  if decide (l = "en"%string) then ["en"; "int"]%string
  else if decide (l = "int"%string) then ["int"; "en"]%string
  else [l; "en"; "int"]%string.
Proof.
  cbn zeta. unfold preferred_langs.
  generalize (preferred_lang sitelang) as l. intros l.
  destruct (decide (l = "en"%string)) as [->|Hen]; [reflexivity|].
  destruct (decide (l = "int"%string)) as [->|Hint]; [reflexivity|].
  unfold orderedSet. cbn [orderedSet_from app].
  rewrite (bool_decide_eq_false_2 (l ∈ [])) by (intros H; inversion H).
  rewrite (bool_decide_eq_false_2 ("en"%string ∈ [l])).
  2:{ rewrite list_elem_of_singleton. congruence. }
  rewrite (bool_decide_eq_false_2 ("int"%string ∈ [l; "en"%string])).
  2:{ rewrite !elem_of_cons. intros [H|[H|H]];
      [congruence|discriminate H|inversion H]. }
  reflexivity.
Qed.

(** C6 (as amended).  For every preferred language, user-supplied or the
    default, the constructed sequence is [(preferred, 'en', 'int')] with
    its duplicates removed and first occurrences kept in place: it has no
    duplicate, holds exactly the three codes, starts with the preferred
    language and keeps the order of the three.  It always contains the
    generic fallback code ['int'], which is its last element whenever the
    preferred language is not ['int'] itself, and for ['int'] the sequence
    is [['int', 'en']]. *)
Theorem preferred_langs_shape (sitelang : option string) :
  let l := preferred_lang sitelang in
  NoDup (preferred_langs sitelang)
  /\ (forall x, x ∈ preferred_langs sitelang
                <-> x = l \/ x = "en"%string \/ x = "int"%string)
  /\ head (preferred_langs sitelang) = Some l
  /\ sublist (preferred_langs sitelang) [l; "en"; "int"]%string
  /\ (l <> "int"%string -> last (preferred_langs sitelang) = Some "int"%string)
  /\ (l = "int"%string -> preferred_langs sitelang = ["int"; "en"]%string).
Proof.
  intros l. split; [apply preferred_langs_NoDup|].
  split.
  { intros x. unfold preferred_langs. rewrite orderedSet_elem.
    rewrite !elem_of_cons. fold l. split.
    - intros [H|[H|[H|H]]]; [tauto|tauto|tauto|inversion H].
    - tauto. }
  rewrite preferred_langs_cases. cbn zeta. fold l. clearbody l.
  destruct (decide (l = "en"%string)) as [->|Hen].
  - repeat split; try reflexivity.
    + apply sublist_cons. reflexivity.
    + discriminate.
  - destruct (decide (l = "int"%string)) as [->|Hint].
    + repeat split; try reflexivity; try congruence.
      do 2 apply sublist_skip. apply sublist_nil_l.
    + repeat split; try reflexivity; try contradiction.
Qed.

Lemma preferred_langs_shape_witness :
  last (preferred_langs (Some "fr"%string)) = Some "int"%string
  /\ preferred_langs (Some "int"%string) = ["int"; "en"]%string.
Proof.
  destruct (preferred_langs_shape (Some "fr"%string))
    as (_ & _ & _ & _ & Hlast & _).
  destruct (preferred_langs_shape (Some "int"%string))
    as (_ & _ & _ & _ & _ & Hint).
  split; [apply Hlast; discriminate|apply Hint; reflexivity].
Defined.

(** C6 (counterexample).  With [sitelang=int] the sequence is
    [['int', 'en']], and its last element is ['en']. *)
Lemma preferred_langs_int_last :
  preferred_langs (Some "int"%string) = ["int"; "en"]%string
  /\ last (preferred_langs (Some "int"%string)) = Some "en"%string.
Proof. split; reflexivity. Qed.

(** ** The formats of [EuropaIE] *)

Example ex_formats :
  formats (Some "fr"%string)
    [ File (Some "http://a/en.mp4") (Some "en") (Some "English");
      File None (Some "de") (Some "Deutsch");
      File (Some "") (Some "it") None;
      File (Some "http://a/fr.mp4") (Some "fr") None ]%string
  = [ Format "http://a/en.mp4" (Some "en") (Some "English") 1;
      Format "http://a/fr.mp4" (Some "fr") None 2 ]%string.
Proof. reflexivity. Qed.

Lemma formats_loop_app rank files acc :
  formats_loop rank files acc = acc ++ formats_loop rank files [].
Proof.
  revert acc. induction files as [|f files IH]; intros acc;
    cbn [formats_loop]; [symmetry; apply app_nil_r|].
  destruct (file_url f) as [[|c u]|]; try apply IH.
  rewrite IH, (IH ([] ++ _)), app_assoc. reflexivity.
Qed.

Lemma formats_loop_filter rank files :
  formats_loop rank files []
  = format_of rank <$> filter (fun f => truthy (file_url f) = true) files.
Proof.
  induction files as [|f files IH]; [reflexivity|].
  cbn [formats_loop]. rewrite filter_cons.
  destruct (file_url f) as [[|c u]|] eqn:E; cbn [truthy].
  - rewrite decide_False by discriminate. exact IH.
  - rewrite decide_True by reflexivity.
    rewrite formats_loop_app, IH. cbn [fmap list_fmap app].
    unfold format_of at 2. rewrite E. reflexivity.
  - rewrite decide_False by discriminate. exact IH.
Qed.

(** C10.  The formats of the playlist-based extractor are the entries
    made, in order, of the [file] elements whose URL is present and not
    empty; a [file] element whose URL is absent or empty contributes none,
    and every format entry has a non-empty [url]. *)
Theorem formats_have_url (sitelang : option string) (files : list file_) :
  formats sitelang files
  = format_of (language_preference_of (preferred_langs sitelang))
      <$> filter (fun f => truthy (file_url f) = true) files
  /\ Forall (fun fm => url fm <> ""%string) (formats sitelang files)
  /\ (forall fm, fm ∈ formats sitelang files ->
        exists f, f ∈ files /\ file_url f = Some (url fm)).
Proof.
  unfold formats. rewrite formats_loop_filter.
  split; [reflexivity|]. split.
  - apply Forall_fmap, Forall_forall. intros f Hf.
    apply list_elem_of_filter in Hf as [Hf _]. cbn.
    destruct (truthy_inv _ Hf) as (c & u & ->). discriminate.
  - intros fm Hfm. apply list_elem_of_fmap in Hfm as (f & -> & Hf).
    apply list_elem_of_filter in Hf as [Ht Hf]. exists f. split; [exact Hf|].
    destruct (truthy_inv _ Ht) as (c & u & E). cbn. rewrite E. reflexivity.
Qed.

Lemma formats_have_url_witness :
  Forall (fun fm => url fm <> ""%string)
    (formats (Some "fr"%string)
       [ File (Some "http://a/en.mp4") (Some "en") (Some "English");
         File None (Some "de") (Some "Deutsch");
         File (Some "") (Some "it") None ]%string)
  /\ length
       (formats (Some "fr"%string)
          [ File (Some "http://a/en.mp4") (Some "en") (Some "English");
            File None (Some "de") (Some "Deutsch");
            File (Some "") (Some "it") None ]%string) = 1%nat.
Proof.
  destruct (formats_have_url (Some "fr"%string)
              [ File (Some "http://a/en.mp4") (Some "en") (Some "English");
                File None (Some "de") (Some "Deutsch");
                File (Some "") (Some "it") None ]%string) as (Heq & Hall & _).
  split; [exact Hall|]. rewrite Heq. reflexivity.
Defined.

(** ** The assembler of [EuroParlWebstreamIE] *)

Import Webstream.

Example ex_get_lang :
  _get_lang
    (AudioList [Audio (Some "a1") (Some "en"); Audio None (Some "xx");
                Audio (Some "a2") None; Audio (Some "a1") (Some "fr")]%string)
    <$> [Some "a1"; Some "a2"; Some "a3"; None]%string
  = [Return (Some "en"); Return None; Return None; Return None]%string.
Proof. reflexivity. Qed.

Example ex_get_lang_no_key :
  _get_lang NoKey <$> [Some "a1"; None]%string = [Return None; Return None].
Proof. reflexivity. Qed.

Example ex_get_lang_null :
  _get_lang JsonNull <$> [Some "a1"; None]%string
  = [Raise TypeError; Return None].
Proof. reflexivity. Qed.

(** An object that the expander returned twice would be resolved twice:
    the second time its language code is looked up as a track. *)
Example ex_alias :
  output_formats
    (assemble (AudioList [Audio (Some "a1") (Some "en")]%string)
       {[ 0%nat := HlsFormat "u" None (Some "a1") ]}%string
       [([0%nat], ∅); ([0%nat], ∅)])
  = [Some (HlsFormat "u" None None); Some (HlsFormat "u" None None)]%string.
Proof. vm_compute. reflexivity. Qed.




Lemma occurrences_cons_eq l ls : occurrences l (l :: ls) = S (occurrences l ls).
Proof.
  unfold occurrences. rewrite filter_cons, decide_True by reflexivity.
  reflexivity.
Qed.

Lemma occurrences_cons_ne l x ls :
  x <> l -> occurrences l (x :: ls) = occurrences l ls.
Proof.
  intros H. unfold occurrences. rewrite filter_cons, decide_False by exact H.
  reflexivity.
Qed.

Lemma occurrences_app l ls ks :
  occurrences l (ls ++ ks) = (occurrences l ls + occurrences l ks)%nat.
Proof. unfold occurrences. rewrite filter_app, length_app. reflexivity. Qed.

Lemma occurrences_0 l ls : l ∉ ls -> occurrences l ls = 0%nat.
Proof.
  induction ls as [|x ls IH]; intros H; [reflexivity|].
  apply not_elem_of_cons in H as [Hne Hl].
  rewrite occurrences_cons_ne by congruence. apply IH, Hl.
Qed.


(** The loop of lines 207-208 has run line 208 on a front part of
    [fmt], all of it unless an exception has left the loop, once for
    every place a dict has in that part. *)
Lemma resolve_languages_done ma (fmt : list loc) (h h' : store) r :
  resolve_languages ma h fmt = (h', r) ->
  exists done,
    done `prefix_of` fmt
    /\ (r = None -> done = fmt)
    /\ forall l : loc,
         h' !! l = Nat.iter (occurrences l done) (resolved ma) <$> h !! l.
Proof.
  revert h. induction fmt as [|x fmt IH]; intros h H.
  - injection H as <- <-. exists []. repeat split; try reflexivity.
    intros l. destruct (h !! l); reflexivity.
  - cbn [resolve_languages] in H.
    assert (Hstep : forall h1 : store,
              (forall l : loc, h1 !! l
                 = (if decide (x = l) then resolved ma else id) <$> h !! l) ->
              resolve_languages ma h1 fmt = (h', r) ->
              exists done,
                done `prefix_of` x :: fmt
                /\ (r = None -> done = x :: fmt)
                /\ forall l : loc,
                     h' !! l
                     = Nat.iter (occurrences l done) (resolved ma) <$> h !! l).
    { intros h1 Hh1 H1. destruct (IH h1 H1) as (done & Hpre & Hall & Hl).
      exists (x :: done). split; [apply prefix_cons, Hpre|].
      split; [intros Hr; f_equal; apply Hall, Hr|].
      intros l. rewrite Hl, Hh1.
      destruct (decide (x = l)) as [->|Hne].
      - rewrite occurrences_cons_eq.
        destruct (h !! l) as [d|]; [|reflexivity].
        cbn [fmap option_fmap option_map]. rewrite Nat.iter_succ_r.
        reflexivity.
      - rewrite occurrences_cons_ne by exact Hne.
        destruct (h !! l); reflexivity. }
    destruct (h !! x) as [d|] eqn:Ex.
    + destruct (_get_lang ma (language d)) as [v|e] eqn:Eg.
      * apply (Hstep (<[x := set_language d v]> h)); [|exact H].
        intros l. destruct (decide (x = l)) as [->|Hne].
        -- rewrite lookup_insert_eq, Ex. cbn. unfold resolved. rewrite Eg.
           reflexivity.
        -- rewrite lookup_insert_ne by exact Hne.
           destruct (h !! l); reflexivity.
      * injection H as <- <-. exists []. split; [apply prefix_nil|].
        split; [discriminate|].
        intros l. destruct (h !! l); reflexivity.
    + apply (Hstep h); [|exact H].
      intros l. destruct (decide (x = l)) as [->|Hne].
      * rewrite Ex. reflexivity.
      * destruct (h !! l); reflexivity.
Qed.

Lemma assemble_snoc ma h exps e :
  assemble ma h (exps ++ [e]) = manifest_step ma (assemble ma h exps) e.
Proof. unfold assemble. rewrite foldl_app. reflexivity. Qed.

(** The same for the whole loop of lines 203-209. *)
Lemma assemble_done ma h exps :
  exists done,
    done `prefix_of` concat (exps.*1)
    /\ (raised (assemble ma h exps) = None ->
        done = concat (exps.*1)
        /\ formats (assemble ma h exps) = concat (exps.*1))
    /\ forall l : loc,
         heap (assemble ma h exps) !! l
         = Nat.iter (occurrences l done) (resolved ma) <$> h !! l.
Proof.
  induction exps as [|[fmt subs] exps (done & Hpre & Hall & Hl)] using rev_ind.
  - exists []. repeat split; try reflexivity.
    intros l. cbn. destruct (h !! l); reflexivity.
  - rewrite assemble_snoc, fmap_app, concat_app. cbn [fmap list_fmap fst concat].
    rewrite app_nil_r. cbn [manifest_step].
    destruct (raised (assemble ma h exps)) as [e|] eqn:Er.
    + exists done. split; [apply prefix_app_r, Hpre|].
      split; [rewrite Er; discriminate|exact Hl].
    + destruct (Hall eq_refl) as [-> Hf].
      destruct (resolve_languages ma (heap (assemble ma h exps)) fmt)
        as [h' r] eqn:E.
      destruct (resolve_languages_done _ _ _ _ _ E)
        as (done' & Hpre' & Hall' & Hl').
      exists (concat exps.*1 ++ done').
      split; [apply prefix_app, Hpre'|].
      assert (Hheap : forall l : loc,
                h' !! l
                = Nat.iter (occurrences l (concat exps.*1 ++ done'))
                    (resolved ma) <$> h !! l).
      { intros l. rewrite Hl', Hl, occurrences_app.
        destruct (h !! l) as [d|]; [|reflexivity]. cbn.
        rewrite Nat.add_comm, Nat.iter_add. reflexivity. }
      destruct r as [e|]; cbn [raised formats heap].
      * split; [discriminate|exact Hheap].
      * split; [|exact Hheap]. intros _.
        rewrite (Hall' eq_refl), Hf. split; reflexivity.
Qed.






(** ** The subtitles of [EuroParlWebstreamIE] *)

Lemma merge_subtitle_items_prefix old new :
  old `prefix_of` merge_subtitle_items old new.
Proof. apply prefix_app_r. reflexivity. Qed.

Lemma merge_subtitles_keeps subs target lang old :
  target !! lang = Some old ->
  exists new, _merge_subtitles subs target !! lang = Some new
              /\ old `prefix_of` new.
Proof.
  intros Hold. unfold _merge_subtitles.
  rewrite lookup_union_with, Hold.
  destruct (subs !! lang) as [items|]; cbn.
  - eexists. split; [reflexivity|apply merge_subtitle_items_prefix].
  - eexists. split; reflexivity.
Qed.

Lemma manifest_step_subtitles ma st e lang old :
  subtitles st !! lang = Some old ->
  exists new, subtitles (manifest_step ma st e) !! lang = Some new
              /\ old `prefix_of` new.
Proof.
  intros Hold. destruct e as [fmt subs]. cbn [manifest_step].
  destruct (raised st); [exists old; split; [exact Hold|reflexivity]|].
  destruct (resolve_languages ma (heap st) fmt) as [h' [e|]];
    cbn [subtitles].
  - exists old. split; [exact Hold|reflexivity].
  - apply merge_subtitles_keeps, Hold.
Qed.

Lemma assemble_subtitles_grow ma h exps1 exps2 lang old :
  subtitles (assemble ma h exps1) !! lang = Some old ->
  exists new, subtitles (assemble ma h (exps1 ++ exps2)) !! lang = Some new
              /\ old `prefix_of` new.
Proof.
  intros Hold. induction exps2 as [|e exps2 IH] using rev_ind.
  - rewrite app_nil_r. exists old. split; [exact Hold|reflexivity].
  - destruct IH as (mid & Hmid & Hpre).
    rewrite app_assoc, assemble_snoc.
    destruct (manifest_step_subtitles ma _ e lang mid Hmid)
      as (new & Hnew & Hpre').
    exists new. split; [exact Hnew|]. etransitivity; eassumption.
Qed.

(** C8.  Merging the subtitle tracks of a manifest into the running
    collection keeps, for every language already in the collection, the
    entries collected so far, in place and in order, in front of what the
    merge adds; so an entry collected after some of the manifests is
    still there after all of them. *)
Theorem subtitles_merge_additive
    (meetingAudio : meeting_audio) (h : store)
    (done more : list (list loc * gmap string (list subtitle)))
    (subs target : gmap string (list subtitle))
    (lang : string) :
  (forall old,
      target !! lang = Some old ->
      exists new, _merge_subtitles subs target !! lang = Some new
                  /\ old `prefix_of` new
                  /\ forall e, e ∈ old -> e ∈ new)
  /\ (forall old,
        subtitles (assemble meetingAudio h done) !! lang = Some old ->
        exists new,
          subtitles (assemble meetingAudio h (done ++ more)) !! lang
          = Some new
          /\ old `prefix_of` new
          /\ forall e, e ∈ old -> e ∈ new).
Proof.
  split; intros old Hold.
  - destruct (merge_subtitles_keeps subs target lang old Hold)
      as (new & Hnew & Hpre).
    exists new. repeat split; try assumption.
    intros e He. destruct Hpre as [k ->]. apply elem_of_app. tauto.
  - destruct (assemble_subtitles_grow meetingAudio h done more lang old Hold)
      as (new & Hnew & Hpre).
    exists new. repeat split; try assumption.
    intros e He. destruct Hpre as [k ->]. apply elem_of_app. tauto.
Qed.

Lemma subtitles_merge_additive_witness :
  exists new,
    _merge_subtitles
      {[ "en" := [Subtitle "en" "http://b/en.vtt"; Subtitle "en" "http://a/en.vtt"] ]}
      {[ "en" := [Subtitle "en" "http://a/en.vtt"] ]}%string
      !! "en"%string = Some new
    /\ Subtitle "en" "http://a/en.vtt" ∈ new.
Proof.
  destruct (proj1 (subtitles_merge_additive NoKey ∅ [] []
              {[ "en" := [Subtitle "en" "http://b/en.vtt";
                          Subtitle "en" "http://a/en.vtt"] ]}
              {[ "en" := [Subtitle "en" "http://a/en.vtt"] ]}
              "en")%string
             [Subtitle "en" "http://a/en.vtt"]%string)
    as (new & Hnew & _ & Hin).
  - reflexivity.
  - exists new. split; [exact Hnew|]. apply Hin, list_elem_of_here.
Defined.

Example ex_merge :
  _merge_subtitles
    {[ "en" := [Subtitle "en" "http://b/en.vtt"; Subtitle "en" "http://a/en.vtt"];
       "fr" := [Subtitle "fr" "http://b/fr.vtt"] ]}
    {[ "en" := [Subtitle "en" "http://a/en.vtt"] ]}%string
  = {[ "en" := [Subtitle "en" "http://a/en.vtt"; Subtitle "en" "http://b/en.vtt"];
       "fr" := [Subtitle "fr" "http://b/fr.vtt"] ]}%string.
Proof. vm_compute. reflexivity. Qed.

(** ** The title of [EuroParlWebstreamIE] *)

Example ex_title_nested :
  title (JObj [("title", JStr "Top");
               ("mediaItem", JObj [("title", JStr "Plenary session")])])%string
  = Some (JStr "Plenary session").
Proof. reflexivity. Qed.

Example ex_title_inner :
  title (JObj [("title", JObj [("title", JStr "Inner")]);
               ("mediaItem", JObj [("title", JNull)])])%string
  = Some (JStr "Inner").
Proof. reflexivity. Qed.

Example ex_title_none : title (JObj [("mediaItem", JStr "x")]%string) = None.
Proof. reflexivity. Qed.

(** The path of line 203 on a meeting record with both alternatives. *)
Example ex_hls_urls :
  apply_path [Branch [[Key "meetingVideo"]; [Key "meetingVideos"]];
              Key "hlsUrl"]%string
    (JObj [("meetingVideo", JObj [("hlsUrl", JStr "a.m3u8")]);
           ("meetingVideos", JObj [("hlsUrl", JStr "b.m3u8")])])%string
  = [JStr "a.m3u8"; JStr "b.m3u8"]%string.
Proof. reflexivity. Qed.

(** A path of two tuples, the first with two names and the second with
    one: the second name is looked up in what either of the first two
    selects. *)
Lemma traverse_two_branches obj a b k :
  traverse_obj_first obj [Branch [[Key a]; [Key b]]; Branch [[Key k]]]
  = List.find helpful [dict_get k (dict_get a obj); dict_get k (dict_get b obj)].
Proof. reflexivity. Qed.

(** C9 (as amended).  The title of the output record is the first
    candidate that is neither [None] nor [{}] among, in this order, the
    [title] of the nested [mediaItem] and the [title] of the top-level
    [title]: the nested field is taken whenever it is present, then the
    [title] inside the top-level [title], and a top-level [title] that is
    a string gives no title. *)
Theorem title_candidates (webpage_nextjs : json) :
  let nested := dict_get "title" (dict_get "mediaItem" webpage_nextjs) in
  let inner := dict_get "title" (dict_get "title" webpage_nextjs) in
  (helpful nested = true -> title webpage_nextjs = Some nested)
  /\ (helpful nested = false -> helpful inner = true ->
      title webpage_nextjs = Some inner)
  /\ (helpful nested = false -> helpful inner = false ->
      title webpage_nextjs = None)
  /\ (forall s,
        helpful nested = false ->
        dict_get "title" webpage_nextjs = JStr s ->
        title webpage_nextjs = None).
Proof.
  intros nested inner. unfold title. rewrite traverse_two_branches.
  fold nested inner. cbn [List.find].
  split; [intros ->; reflexivity|].
  split; [intros -> ->; reflexivity|].
  split; [intros -> ->; reflexivity|].
  intros s -> Hs. unfold inner. rewrite Hs. reflexivity.
Qed.

Lemma title_candidates_witness :
  title (JObj [("title", JStr "Top");
               ("mediaItem", JObj [("title", JStr "Plenary session")])])%string
  = Some (JStr "Plenary session")
  /\ title (JObj [("title", JObj [("title", JStr "Inner")])])%string
     = Some (JStr "Inner").
Proof.
  split.
  - apply (proj1 (title_candidates
                    (JObj [("title", JStr "Top");
                           ("mediaItem",
                            JObj [("title", JStr "Plenary session")])])%string)).
    reflexivity.
  - apply (proj1 (proj2 (title_candidates
                           (JObj [("title",
                                   JObj [("title", JStr "Inner")])])%string)));
      reflexivity.
Defined.

(** C9 (counterexample).  With no [mediaItem] and a top-level [title]
    that is the string ['Top'], the sibling title is not resolved to: the
    output record has no title. *)
Lemma title_sibling_string_unused :
  title (JObj [("title", JStr "Top")]%string) = None.
Proof. reflexivity. Qed.

(** * Further properties *)

(** ** What the two pre-checks accept *)

Lemma offset_regex_fixed : fixed offset_regex.
Proof. repeat constructor. Qed.

(** Every string is a run of digits and a rest with no digit in front. *)
Lemma digit_run l :
  exists f z, l = f ++ z /\ forallb is_digit f = true /\ no_digit_ahead z.
Proof.
  induction l as [|a l (f & z & -> & Hf & Hz)].
  - exists [], []. repeat split.
  - destruct (is_digit a) eqn:E.
    + exists (a :: f), z. cbn. rewrite E, Hf. repeat split. exact Hz.
    + exists [], (a :: f ++ z). repeat split. exact E.
Qed.

Lemma fits_offset_no_digit o t :
  fits offset_regex o = true -> no_digit_ahead (o ++ t).
Proof.
  destruct o as [|a o]; [discriminate|]. intros H. cbn.
  destruct (is_digit a) eqn:E; [|reflexivity].
  cbn in H. rewrite take_0 in H. cbn [forallb] in H.
  change ((a =? "+")%char || ((a =? "-")%char || false))
    with (cmem (AnyOf ["+"; "-"]%char) a) in H.
  rewrite (digit_not_sign a E) in H. discriminate H.
Qed.

Lemma rmatch_fixed_all r l t :
  fixed r -> fits r l = true -> rmatch r (l ++ t) = Some t.
Proof.
  intros Hr Hl. rewrite <- (app_nil_r r).
  rewrite (rmatch_fixed_app _ _ _ _ Hr Hl). reflexivity.
Qed.

Lemma rmatch_fixed_all_inv r s rest :
  fixed r -> rmatch r s = Some rest ->
  exists l, s = l ++ rest /\ fits r l = true.
Proof.
  intros Hr H. rewrite <- (app_nil_r r) in H.
  destruct (rmatch_fixed_inv _ _ _ _ Hr H) as (l & t & -> & Hl & Ht).
  injection Ht as ->. eauto.
Qed.

Lemma with_microseconds_parts l rest :
  rmatch datetime_regex_with_microseconds l = Some rest ->
  exists p f o,
    l = p ++ "."%char :: f ++ o ++ rest
    /\ fits date_time_regex p = true
    /\ forallb is_digit f = true
    /\ (1 <= length f <= 7)%nat
    /\ fits offset_regex o = true.
Proof.
  intros H. unfold datetime_regex_with_microseconds in H.
  destruct (rmatch_fixed_inv _ _ _ _ date_time_regex_fixed H)
    as (p & t & -> & Hp & Ht).
  destruct t as [|a t]; [discriminate Ht|].
  assert (a = "."%char) as ->.
  { cbn [app rmatch lit exactly fuel_of rep cmem] in Ht.
    destruct (Ascii.eqb_spec a "."); [assumption|discriminate Ht]. }
  cbn [app] in Ht. rewrite rmatch_lit in Ht.
  destruct (digit_run t) as (f & z & -> & Hf & Hz).
  change (rmatch (between Digit 1 7 :: offset_regex) (f ++ z))
    with (rep Digit (rmatch offset_regex) 7 1 (f ++ z)) in Ht.
  rewrite (rep_digits _ _ _ _ _ offset_rejects_digit Hf Hz) in Ht.
  destruct ((1 <=? length f)%nat && (length f <=? 7)%nat) eqn:E;
    [|discriminate Ht].
  apply andb_prop in E as [E1 E2].
  apply Nat.leb_le in E1. apply Nat.leb_le in E2.
  destruct (rmatch_fixed_all_inv _ _ _ offset_regex_fixed Ht) as (o & -> & Ho).
  exists p, f, o. repeat split; assumption.
Qed.

(** X1.  The pre-check with microseconds accepts exactly the strings that
    begin with a date and time [\d{4}-\d{2}-\d{2}T\d{2}:\d{2}:\d{2}], a
    dot, one to seven digits and an offset [[+-]\d{2}:\d{2}]; what follows
    the offset is not looked at. *)
Theorem with_microseconds_accepts (s : string) :
  re_match datetime_regex_with_microseconds s = true
  <-> exists p f o t,
        chars s = p ++ "."%char :: f ++ o ++ t
        /\ fits date_time_regex p = true
        /\ forallb is_digit f = true
        /\ (1 <= length f <= 7)%nat
        /\ fits offset_regex o = true.
Proof.
  rewrite <- (str_chars s) at 1. rewrite re_match_str. split.
  - destruct (rmatch datetime_regex_with_microseconds (chars s))
      as [rest|] eqn:E; [intros _|discriminate].
    destruct (with_microseconds_parts _ _ E) as (p & f & o & H).
    exists p, f, o, rest. exact H.
  - intros (p & f & o & t & -> & Hp & Hf & [H1 H7] & Ho).
    rewrite (with_microseconds_shape p f (o ++ t) Hp Hf
               (fits_offset_no_digit o t Ho)).
    rewrite (rmatch_fixed_all _ o t offset_regex_fixed Ho).
    replace (1 <=? length f)%nat with true
      by (symmetry; apply Nat.leb_le; lia).
    replace (length f <=? 7)%nat with true
      by (symmetry; apply Nat.leb_le; lia).
    reflexivity.
Qed.

(** X2.  The pre-check without microseconds accepts exactly the strings
    that begin with a date and time and, right after the seconds, an
    offset; what follows the offset is not looked at. *)
Theorem without_microseconds_accepts (s : string) :
  re_match datetime_regex_without_microseconds s = true
  <-> exists p o t,
        chars s = p ++ o ++ t
        /\ fits date_time_regex p = true
        /\ fits offset_regex o = true.
Proof.
  rewrite <- (str_chars s) at 1. rewrite re_match_str.
  unfold datetime_regex_without_microseconds. split.
  - destruct (rmatch (date_time_regex ++ offset_regex) (chars s))
      as [rest|] eqn:E; [intros _|discriminate].
    destruct (rmatch_fixed_inv _ _ _ _ date_time_regex_fixed E)
      as (p & z & Hs & Hp & Hz).
    destruct (rmatch_fixed_all_inv _ _ _ offset_regex_fixed Hz)
      as (o & -> & Ho).
    exists p, o, rest. auto.
  - intros (p & o & t & -> & Hp & Ho).
    rewrite (rmatch_fixed_app _ _ _ _ date_time_regex_fixed Hp).
    rewrite (rmatch_fixed_all _ o t offset_regex_fixed Ho). reflexivity.
Qed.

Lemma without_after_with_same s :
  re_match datetime_regex_with_microseconds s = true ->
  re_match datetime_regex_without_microseconds s = false.
Proof.
  rewrite <- (str_chars s), !re_match_str.
  destruct (rmatch datetime_regex_with_microseconds (chars s))
    as [rest|] eqn:E; [intros _|discriminate].
  destruct (with_microseconds_inv _ _ E) as (p & t & -> & Hp).
  rewrite (without_microseconds_dot _ _ Hp). reflexivity.
Qed.

(** X3.  No string passes both pre-checks. *)
Theorem pre_checks_exclusive (s : string) :
  re_match datetime_regex_with_microseconds s = true ->
  re_match datetime_regex_without_microseconds s = false.
Proof. apply without_after_with_same. Qed.

Lemma pre_checks_exclusive_witness :
  re_match datetime_regex_without_microseconds ts_7_digits = false.
Proof. apply (pre_checks_exclusive ts_7_digits). reflexivity. Defined.

(** X4.  [_parse_datetime] is decided by one parse: of the string after
    the substitution, in the format with microseconds, when the first
    pre-check matches; of the string itself, in the format without, when
    only the second does; and by none when neither does, with [None] for
    result.  The datetime of that parse is returned, its [ValueError]
    becomes [None], and an exception of any other class leaves
    [_parse_datetime]. *)
Theorem parse_datetime_cases
    (dfs : string -> string -> result datetime) (s : string) :
  _parse_datetime dfs s =
  if re_match datetime_regex_with_microseconds s then
    on_parse (dfs (re_sub_group1 pattern_group1 pattern_rest s)
                datetime_format_with_microseconds)
  else if re_match datetime_regex_without_microseconds s then
    on_parse (dfs s datetime_format_without_microseconds)
  else Return None.
Proof.
  destruct (re_match datetime_regex_with_microseconds s) eqn:H1.
  - apply parse_datetime_with, H1.
  - destruct (re_match datetime_regex_without_microseconds s) eqn:H2.
    + apply parse_datetime_without; assumption.
    + apply parse_datetime_no_match; assumption.
Qed.

(** ** What the substitution leaves behind *)

(** [\d*] always matches, and stops in front of a character that is no
    digit. *)
Lemma pattern_rest_inv l rest :
  rmatch pattern_rest l = Some rest ->
  exists f, l = f ++ rest /\ forallb is_digit f = true /\ no_digit_ahead rest.
Proof.
  destruct (digit_run l) as (f & z & -> & Hf & Hz). intros H.
  cbn [pattern_rest star rmatch fuel_of] in H.
  rewrite (rep_star_digits _ f z Hf Hz) in H by (rewrite length_app; lia).
  injection H as <-. eauto.
Qed.

Lemma pattern_rest_total l : exists rest, rmatch pattern_rest l = Some rest.
Proof.
  destruct (digit_run l) as (f & z & -> & Hf & Hz). exists z.
  cbn [pattern_rest star rmatch fuel_of].
  apply rep_star_digits; [assumption..|rewrite length_app; lia].
Qed.

(** The substitution keeps a first character that is no digit in front. *)
Lemma sub_group1_no_digit fuel z :
  no_digit_ahead z ->
  no_digit_ahead (sub_group1 pattern_group1 pattern_rest fuel z).
Proof.
  intros Hz. destruct fuel as [|fuel]; [exact Hz|].
  destruct z as [|a z]; [exact I|]. cbn [sub_group1].
  destruct (rmatch pattern_group1 (a :: z)) as [after|] eqn:Eg; [|exact Hz].
  destruct (rmatch pattern_rest after) as [rest|]; [|exact Hz].
  destruct (group1_inv _ _ Eg) as (d & Hs & Hd & _).
  injection Hs as -> ->. cbn [length]. rewrite length_app.
  replace (S (length d + length after) - length after)%nat
    with (S (length d)) by lia.
  reflexivity.
Qed.

(** Fewer than [n] digits in front of a character that is no digit are
    not [n] digits. *)
Lemma short_digit_run n f z :
  forallb is_digit f = true -> no_digit_ahead z -> (length f < n)%nat ->
  (n <=? length (f ++ z))%nat && forallb is_digit (take n (f ++ z)) = false.
Proof.
  revert n. induction f as [|a f IH]; intros n Hf Hz Hn.
  - destruct n as [|n]; [cbn in Hn; lia|]. cbn [app].
    destruct z as [|b z]; [reflexivity|].
    cbn in Hz. cbn [take forallb]. rewrite Hz. apply andb_false_r.
  - destruct n as [|n]; [cbn in Hn; lia|].
    cbn in Hf. apply andb_prop in Hf as [Ha Hf]. cbn in Hn.
    cbn [app take forallb length]. rewrite Ha. cbn [andb].
    apply (IH n Hf Hz). lia.
Qed.

Lemma long_fraction_needs_dot a l :
  a <> "."%char -> rmatch long_fraction (a :: l) = None.
Proof.
  intros Ha. cbn [long_fraction rmatch lit exactly fuel_of rep cmem].
  destruct (Ascii.eqb_spec a "."); [contradiction|reflexivity].
Qed.

Lemma long_fraction_short f z :
  forallb is_digit f = true -> no_digit_ahead z -> (length f < 7)%nat ->
  rmatch long_fraction ("."%char :: f ++ z) = None.
Proof.
  intros Hf Hz Hlen. unfold long_fraction. rewrite rmatch_lit.
  cbn [rmatch exactly fuel_of]. rewrite rep_exact.
  change (cmem Digit) with is_digit.
  rewrite (short_digit_run 7 f z Hf Hz Hlen). reflexivity.
Qed.

Lemma long_fraction_fixed : fixed long_fraction.
Proof. repeat constructor. Qed.

Lemma long_fraction_match d b w :
  length d = 6%nat -> forallb is_digit d = true -> is_digit b = true ->
  rmatch long_fraction ("."%char :: d ++ b :: w) = Some w.
Proof.
  intros Hlen Hd Hb.
  change ("."%char :: d ++ b :: w) with (("."%char :: d) ++ b :: w).
  rewrite (app_assoc _ [b] w : ("."%char :: d) ++ b :: w = _).
  apply (rmatch_fixed_all _ _ _ long_fraction_fixed).
  cbn [fits long_fraction lit exactly lo cls].
  change (drop 1 (("."%char :: d) ++ [b])) with (drop 0 (d ++ [b])).
  change (take 1 (("."%char :: d) ++ [b])) with ("."%char :: take 0 (d ++ [b])).
  rewrite take_0, drop_0.
  assert (Hl : length (d ++ [b]) = 7%nat) by (rewrite length_app; cbn; lia).
  cbn [length app]. rewrite Hl, take_ge, drop_ge by lia.
  change (cmem Digit) with is_digit.
  rewrite forallb_app, Hd. cbn. rewrite Hb. reflexivity.
Qed.

(** When group 1 does not match at a dot, fewer than six digits follow
    the dot. *)
Lemma group1_fails_short f z :
  forallb is_digit f = true ->
  rmatch pattern_group1 ("."%char :: f ++ z) = None ->
  (length f < 6)%nat.
Proof.
  intros Hf H. destruct (Nat.lt_ge_cases (length f) 6) as [Hlt|Hge];
    [exact Hlt|exfalso].
  rewrite <- (take_drop 6 f), <- app_assoc in H.
  rewrite <- (take_drop 6 f), forallb_app in Hf.
  apply andb_prop in Hf as [Hf1 _].
  rewrite group1_match in H; [discriminate H| |exact Hf1].
  rewrite length_take. lia.
Qed.

Lemma no_long_fraction_skip p l :
  Forall (fun a => a <> "."%char) p ->
  no_long_fraction (p ++ l) = no_long_fraction l.
Proof.
  induction 1 as [|a p Ha _ IH]; [reflexivity|].
  cbn [app no_long_fraction].
  rewrite (long_fraction_needs_dot a _ Ha). exact IH.
Qed.

Lemma no_long_fraction_suffix p l :
  no_long_fraction (p ++ l) = true -> no_long_fraction l = true.
Proof.
  induction p as [|a p IH]; [auto|]. cbn [app no_long_fraction].
  destruct (rmatch long_fraction (a :: p ++ l)); [discriminate|exact IH].
Qed.

Lemma digits_no_dot f :
  forallb is_digit f = true -> Forall (fun a => a <> "."%char) f.
Proof.
  intros Hf. apply Forall_forall. intros a Ha.
  rewrite forallb_forall in Hf. apply digit_not_dot, Hf.
  apply list_elem_of_In, Ha.
Qed.

Lemma sub_group1_no_long fuel s :
  (length s <= fuel)%nat ->
  no_long_fraction (sub_group1 pattern_group1 pattern_rest fuel s) = true.
Proof.
  revert s. induction fuel as [|fuel IH]; intros s Hlen.
  - destruct s; [reflexivity|cbn in Hlen; lia].
  - destruct s as [|a s]; [reflexivity|]. cbn in Hlen. cbn [sub_group1].
    assert (Hcopy :
      rmatch pattern_group1 (a :: s) = None ->
      no_long_fraction
        (a :: sub_group1 pattern_group1 pattern_rest fuel s) = true).
    { intros Eg. cbn [no_long_fraction].
      assert (Hno : rmatch long_fraction
                      (a :: sub_group1 pattern_group1 pattern_rest fuel s)
                    = None).
      { destruct (Ascii.eqb_spec a ".") as [->|Ha];
          [|apply long_fraction_needs_dot, Ha].
        destruct (digit_run s) as (f & z & -> & Hf & Hz).
        pose proof (group1_fails_short f z Hf Eg) as Hshort.
        rewrite length_app in Hlen.
        replace fuel with (length f + (fuel - length f))%nat by lia.
        rewrite (sub_group1_skip _ f z (digits_no_dot f Hf)).
        apply long_fraction_short; [exact Hf| |lia].
        apply sub_group1_no_digit, Hz. }
      rewrite Hno. apply IH. lia. }
    destruct (rmatch pattern_group1 (a :: s)) as [after|] eqn:Eg;
      [|apply Hcopy; reflexivity].
    destruct (pattern_rest_total after) as [rest Er]. rewrite Er.
    destruct (group1_inv _ _ Eg) as (d & Hs & Hd6 & Hd).
    injection Hs as -> ->.
    destruct (pattern_rest_inv _ _ Er) as (f & -> & Hf & Hz).
    cbn [length]. rewrite !length_app.
    replace (S (length d + (length f + length rest))
             - (length f + length rest))%nat with (S (length d)) by lia.
    change ("."%char :: d ++ f ++ rest) with (("."%char :: d) ++ f ++ rest).
    rewrite take_app_length'; [|reflexivity].
    rewrite !length_app in Hlen.
    cbn [app no_long_fraction].
    rewrite long_fraction_short;
      [|exact Hd|apply sub_group1_no_digit, Hz|lia].
    rewrite (no_long_fraction_skip d _ (digits_no_dot d Hd)).
    apply IH. lia.
Qed.

(** X5.  In the string that the substitution of line 29 returns, no dot
    is followed by seven digits: every fraction it hands to the parse has
    at most the six digits that [%f] reads. *)
Theorem re_sub_no_long_fraction (s : string) :
  no_long_fraction
    (chars (re_sub_group1 pattern_group1 pattern_rest s)) = true.
Proof.
  rewrite <- (str_chars s), re_sub_str, chars_str.
  apply sub_group1_no_long. reflexivity.
Qed.

Lemma sub_group1_id fuel l :
  (length l <= fuel)%nat -> no_long_fraction l = true ->
  sub_group1 pattern_group1 pattern_rest fuel l = l.
Proof.
  revert l. induction fuel as [|fuel IH]; intros l Hlen Hl; [reflexivity|].
  destruct l as [|a l]; [reflexivity|]. cbn in Hlen.
  cbn [no_long_fraction] in Hl.
  destruct (rmatch long_fraction (a :: l)) eqn:El; [discriminate Hl|].
  cbn [sub_group1].
  destruct (rmatch pattern_group1 (a :: l)) as [after|] eqn:Eg;
    [|f_equal; apply IH; [lia|exact Hl]].
  destruct (rmatch pattern_rest after) as [rest|] eqn:Er;
    [|f_equal; apply IH; [lia|exact Hl]].
  destruct (group1_inv _ _ Eg) as (d & Hs & Hd6 & Hd).
  injection Hs as -> ->.
  destruct (pattern_rest_inv _ _ Er) as (f & -> & Hf & Hz).
  destruct f as [|b f].
  - cbn [app length] in *. rewrite length_app in *.
    replace (S (length d + length rest) - length rest)%nat
      with (S (length d)) by lia.
    change ("."%char :: d ++ rest) with (("."%char :: d) ++ rest).
    rewrite take_app_length'; [|reflexivity].
    cbn [app]. do 2 f_equal. apply IH; [lia|].
    apply (no_long_fraction_suffix d), Hl.
  - cbn in Hf. apply andb_prop in Hf as [Hb _].
    cbn [app] in El. rewrite (long_fraction_match d b _ Hd6 Hd Hb) in El.
    discriminate El.
Qed.

Lemma sub_group1_length fuel l :
  (length (sub_group1 pattern_group1 pattern_rest fuel l) <= length l)%nat.
Proof.
  revert l. induction fuel as [|fuel IH]; intros l; [reflexivity|].
  destruct l as [|a l]; [reflexivity|]. cbn [sub_group1].
  destruct (rmatch pattern_group1 (a :: l)) as [after|] eqn:Eg;
    [|cbn; specialize (IH l); lia].
  destruct (rmatch pattern_rest after) as [rest|] eqn:Er;
    [|cbn; specialize (IH l); lia].
  apply rmatch_shorter in Eg as Hg. apply rmatch_shorter in Er.
  rewrite length_app, length_take. specialize (IH rest). lia.
Qed.

(** X6.  The substitution of line 29 leaves a string in which no dot is
    followed by seven digits as it is; applied twice it gives what it
    gives applied once; and it never makes a string longer. *)
Theorem re_sub_fixpoint (s : string) :
  (no_long_fraction (chars s) = true ->
   re_sub_group1 pattern_group1 pattern_rest s = s)
  /\ re_sub_group1 pattern_group1 pattern_rest
       (re_sub_group1 pattern_group1 pattern_rest s)
     = re_sub_group1 pattern_group1 pattern_rest s
  /\ (length (chars (re_sub_group1 pattern_group1 pattern_rest s))
      <= length (chars s))%nat.
Proof.
  rewrite <- (str_chars s), !re_sub_str, !chars_str.
  unfold truncate_fraction. split; [|split].
  - intros H. f_equal. apply sub_group1_id; [reflexivity|exact H].
  - f_equal. apply sub_group1_id; [reflexivity|].
    apply sub_group1_no_long. reflexivity.
  - apply sub_group1_length.
Qed.

Lemma re_sub_fixpoint_witness :
  re_sub_group1 pattern_group1 pattern_rest ts_6_digits = ts_6_digits.
Proof. apply (proj1 (re_sub_fixpoint ts_6_digits)). reflexivity. Defined.

(** ** The duration *)

(** The float nearest to a quotient, and its floor *)

Lemma round_half_even_near n d :
  0 <= n -> 0 < d ->
  2 * n - d <= 2 * (round_half_even n d * d) <= 2 * n + d.
Proof.
  intros Hn Hd. unfold round_half_even.
  pose proof (Z.div_mod n d ltac:(lia)) as E.
  pose proof (Z.mod_pos_bound n d Hd) as Hr.
  destruct (2 * (n mod d) <? d) eqn:E1; [apply Z.ltb_lt in E1; nia|].
  apply Z.ltb_ge in E1.
  destruct (d <? 2 * (n mod d)) eqn:E2; [apply Z.ltb_lt in E2; nia|].
  apply Z.ltb_ge in E2.
  destruct (Z.even (n / d)); nia.
Qed.

Lemma round_half_even_exact n d :
  0 < d -> n mod d = 0 -> round_half_even n d = n / d.
Proof.
  intros Hd Hr. unfold round_half_even. rewrite Hr.
  replace (2 * 0 <? d) with true by (symmetry; apply Z.ltb_lt; lia).
  reflexivity.
Qed.

(** The exponent that [true_divide] picks for a quotient below [2**34]
    of a division by [10**6]. *)
Lemma true_divide_exponent n :
  0 < n < 2 ^ 34 * 1000000 ->
  exists E,
    19 <= E
    /\ true_divide n 1000000 = (round_half_even (n * 2 ^ E) 1000000, - E).
Proof.
  intros [Hn Hlt]. unfold true_divide.
  change (Z.log2 1000000) with 19.
  pose proof (Z.log2_nonneg n) as Ha0.
  assert (Ha : Z.log2 n < 54).
  { apply Z.log2_lt_pow2; [exact Hn|]. change (2 ^ 54) with 18014398509481984.
    change (2 ^ 34) with 17179869184 in Hlt. lia. }
  destruct (Z.log2_spec n Hn) as [Hlo _].
  set (a := Z.log2 n) in *.
  set (e0 := a - 19 - 52).
  assert (He0 : e0 < 0) by (unfold e0; lia).
  assert (He0' : (e0 <? 0) = true) by (apply Z.ltb_lt; exact He0).
  rewrite He0'. cbn [fst snd].
  assert (Hpow : 2 ^ a * 2 ^ (- e0) = 2 ^ 71).
  { rewrite <- Z.pow_add_r by (unfold e0; lia). f_equal. unfold e0. lia. }
  assert (Hp0 : 0 < 2 ^ (- e0)) by (apply Z.pow_pos_nonneg; lia).
  assert (HE : forall E, n * 2 ^ E >= 1000000 * 2 ^ 52 -> 0 <= E -> 19 <= E).
  { intros E HE HE0. destruct (Z.le_gt_cases 19 E) as [|Hs]; [assumption|].
    assert (2 ^ E <= 2 ^ 18) by (apply Z.pow_le_mono_r; lia).
    change (2 ^ 18) with 262144 in *. change (2 ^ 52) with 4503599627370496 in *.
    change (2 ^ 34) with 17179869184 in *. nia. }
  destruct (n * 2 ^ (- e0) <? 1000000 * 2 ^ 52) eqn:Ec.
  - assert (He1 : (e0 - 1 <? 0) = true) by (apply Z.ltb_lt; lia).
    rewrite He1. cbn [fst snd].
    exists (- (e0 - 1)). split; [|f_equal; lia].
    apply HE; [|lia].
    replace (- (e0 - 1)) with (- e0 + 1) by lia.
    rewrite Z.pow_add_r by lia. change (2 ^ 1) with 2.
    change (2 ^ 71) with 2361183241434822606848 in Hpow.
    change (2 ^ 52) with 4503599627370496. nia.
  - rewrite He0'. cbn [fst snd]. apply Z.ltb_ge in Ec.
    exists (- e0). split; [|f_equal; lia].
    apply HE; lia.
Qed.

Lemma total_seconds_floor_exact td :
  Z.abs td < 2 ^ 34 * 1000000 -> total_seconds_floor td = td / 1000000.
Proof.
  intros Hlt. unfold total_seconds_floor.
  destruct (td =? 0) eqn:E0; [apply Z.eqb_eq in E0; subst; reflexivity|].
  apply Z.eqb_neq in E0.
  destruct (true_divide_exponent (Z.abs td) ltac:(lia)) as (E & HE & ->).
  unfold float_floor.
  replace (- E <? 0) with true by (symmetry; apply Z.ltb_lt; lia).
  rewrite Z.opp_involutive.
  assert (HP : 524288 <= 2 ^ E).
  { change 524288 with (2 ^ 19). apply Z.pow_le_mono_r; lia. }
  set (P := 2 ^ E) in *.
  set (n := Z.abs td) in *.
  pose proof (round_half_even_near (n * P) 1000000 ltac:(nia) ltac:(lia)) as Hm.
  pose proof (Z.div_mod n 1000000 ltac:(lia)) as Hdiv.
  pose proof (Z.mod_pos_bound n 1000000 ltac:(lia)) as Hr.
  set (m := round_half_even (n * P) 1000000) in *.
  set (k := n / 1000000) in *. set (r := n mod 1000000) in *.
  assert (Hdivq : forall x q rem, 0 <= rem < P -> x = P * q + rem -> x / P = q)
    by (intros x q rem H1 H2; symmetry; exact (Z.div_unique_pos x P q rem H1 H2)).
  assert (Hdivd : forall x q rem,
             0 <= rem < 1000000 -> x = 1000000 * q + rem -> q = x / 1000000)
    by (intros x q rem H1 H2; exact (Z.div_unique_pos x 1000000 q rem H1 H2)).
  destruct (Z.lt_total td 0) as [Hneg|[?|Hpos]]; [|lia|].
  - (* negative *)
    assert (Hn : td = - n) by (unfold n; lia).
    rewrite Hn. replace (Z.sgn (- n)) with (-1) by (unfold n; lia).
    destruct (Z.eq_dec r 0) as [Hr0|Hr0].
    + assert (Hm' : m = k * P).
      { unfold m. rewrite round_half_even_exact; [|lia|].
        - replace (n * P) with (k * P * 1000000) by lia.
          apply Z.div_mul. lia.
        - rewrite Hdiv, Hr0. replace ((1000000 * k + 0) * P)
            with (k * P * 1000000) by lia. apply Z.mod_mul. lia. }
      rewrite (Hdivq (-1 * m) (- k) 0) by lia.
      apply (Hdivd (- n) (- k) 0); lia.
    + rewrite (Hdivq (-1 * m) (- (k + 1)) ((k + 1) * P - m)) by nia.
      apply (Hdivd (- n) (- (k + 1)) (1000000 - r)); lia.
  - assert (Hn : td = n) by (unfold n; lia).
    rewrite Hn. replace (Z.sgn n) with 1 by (unfold n; lia).
    rewrite Z.mul_1_l. fold k.
    apply (Hdivq m k (m - k * P)); nia.
Qed.

(** X7.  The computation of lines 190-192 returns only when both
    timestamps are present in the meeting record and both parse to a
    datetime, the two being both aware or both naive; what it returns is
    the floor of the float that [total_seconds()] makes of the time from
    the start to the end, which is the floor of the seconds between them
    when they are less than [2**34] seconds apart. *)
Theorem video_duration_returns
    (dfs : string -> string -> result datetime)
    (startDateTime endDateTime : option string) (n : Z) :
  video_duration dfs startDateTime endDateTime = Return n ->
  exists s e a b td,
    startDateTime = Some s /\ endDateTime = Some e
    /\ _parse_datetime dfs s = Return (Some a)
    /\ _parse_datetime dfs e = Return (Some b)
    /\ datetime_sub b a = Return td
    /\ n = total_seconds_floor td
    /\ (Z.abs td < 2 ^ 34 * 1000000 -> n = td / 1000000).
Proof.
  unfold video_duration. intros H.
  destruct startDateTime as [s|]; [|discriminate H].
  destruct endDateTime as [e|].
  - cbn [_parse_datetime_value] in H.
    destruct (_parse_datetime dfs s) as [[a|]|] eqn:Es;
      destruct (_parse_datetime dfs e) as [[b|]|] eqn:Ee;
      try discriminate H.
    cbn in H. destruct (datetime_sub b a) as [td|] eqn:Et;
      [|discriminate H].
    injection H as <-. exists s, e, a, b, td.
    repeat split; try first [reflexivity|assumption].
    apply total_seconds_floor_exact.
  - cbn [_parse_datetime_value] in H.
    destruct (_parse_datetime dfs s) as [[a|]|]; discriminate H.
Qed.

Lemma video_duration_returns_witness :
  exists s e a b td,
    Some "2022-09-14T09:00:00+02:00"%string = Some s
    /\ Some "2022-09-14T09:00:34.5+02:00"%string = Some e
    /\ _parse_datetime Helper.datetime_from_str s = Return (Some a)
    /\ _parse_datetime Helper.datetime_from_str e = Return (Some b)
    /\ datetime_sub b a = Return td
    /\ 34 = total_seconds_floor td
    /\ (Z.abs td < 2 ^ 34 * 1000000 -> 34 = td / 1000000).
Proof.
  apply (video_duration_returns Helper.datetime_from_str
           (Some "2022-09-14T09:00:00+02:00"%string)
           (Some "2022-09-14T09:00:34.5+02:00"%string) 34).
  vm_compute. reflexivity.
Defined.

(** Two datetimes of the range of [datetime] that are [2**35] seconds
    less a microsecond apart: the float of [total_seconds()] is the
    integer above. *)
Example total_seconds_floor_above :
  total_seconds_floor (2 ^ 35 * 1000000 - 1) = 2 ^ 35
  /\ (2 ^ 35 * 1000000 - 1) / 1000000 = 2 ^ 35 - 1.
Proof. split; vm_compute; reflexivity. Qed.

(** ** The items of the playlist *)

Lemma lstrip_idem l : lstrip (lstrip l) = lstrip l.
Proof.
  induction l as [|a l IH]; [reflexivity|]. cbn [lstrip].
  destruct (py_space a) eqn:E; [exact IH|]. cbn [lstrip]. rewrite E.
  reflexivity.
Qed.

Lemma lstrip_no_space l : no_space_ahead (lstrip l).
Proof.
  induction l as [|a l IH]; [exact I|]. cbn [lstrip].
  destruct (py_space a) eqn:E; [exact IH|exact E].
Qed.

Lemma lstrip_id l : no_space_ahead l -> lstrip l = l.
Proof. destruct l as [|a l]; [reflexivity|]. cbn. intros ->. reflexivity. Qed.

(** [lstrip] takes a run of blanks off the front. *)
Lemma lstrip_split l :
  exists sp, l = sp ++ lstrip l /\ forallb py_space sp = true.
Proof.
  induction l as [|a l (sp & Hl & Hsp)]; [exists []; split; reflexivity|].
  cbn [lstrip]. destruct (py_space a) eqn:E.
  - exists (a :: sp). cbn. rewrite E, Hsp. split; [f_equal; exact Hl|reflexivity].
  - exists []. split; reflexivity.
Qed.

(** Taking blanks off the end of a string that begins with none leaves a
    string that begins with none. *)
Lemma rstrip_no_space m :
  no_space_ahead m -> no_space_ahead (reverse (lstrip (reverse m))).
Proof.
  intros Hm. destruct (lstrip_split (reverse m)) as (sp & Hr & Hsp).
  apply (f_equal reverse) in Hr. rewrite reverse_involutive, reverse_app in Hr.
  destruct (reverse (lstrip (reverse m))) as [|c r] eqn:E; [exact I|].
  rewrite Hr in Hm. exact Hm.
Qed.

Lemma strip_chars s :
  chars (strip s) = reverse (lstrip (reverse (lstrip (chars s)))).
Proof. unfold strip. apply chars_str. Qed.

Lemma strip_idem s : strip (strip s) = strip s.
Proof.
  unfold strip at 1. fold (chars (strip s)). rewrite strip_chars.
  set (m := lstrip (chars s)).
  rewrite (lstrip_id (reverse (lstrip (reverse m))))
    by apply rstrip_no_space, lstrip_no_space.
  rewrite reverse_involutive, lstrip_idem.
  reflexivity.
Qed.

Lemma add_item_sets items it lang :
  add_item items it !! lang =
  if sets_entry lang it then Some (entry_of it) else items !! lang.
Proof.
  rewrite add_item_lookup. unfold sets_entry, entry_of.
  destruct (item_lg it) as [l|], (item_label it) as [label|];
    try reflexivity.
  - destruct (decide (l = lang)) as [->|Hne].
    + rewrite !bool_decide_eq_true_2 by reflexivity.
      destruct lang as [|c lang]; [reflexivity|].
      destruct label as [|c' label]; reflexivity.
    + rewrite !bool_decide_eq_false_2 by congruence.
      rewrite andb_false_r. reflexivity.
  - rewrite andb_false_r. reflexivity.
Qed.

Lemma collect_items_lookup its lang :
  collect_items its !! lang
  = entry_of <$> last (filter (fun it => sets_entry lang it = true) its).
Proof.
  induction its as [|it its IH] using rev_ind; [reflexivity|].
  rewrite collect_items_snoc, add_item_sets, filter_app, filter_cons,
    filter_nil.
  destruct (sets_entry lang it) eqn:E.
  - rewrite decide_True by reflexivity. rewrite last_snoc. reflexivity.
  - rewrite decide_False by discriminate. rewrite app_nil_r. exact IH.
Qed.

(** X8.  In the dict [items] of [get_item], the entry of a language is
    made of the last item of the playlist that has this language and
    passes the test of line 78, and it is the stripped label of that
    item; a language that no such item has is not a key of the dict. *)
Theorem collect_items_last_wins (its : list item) (lang : string) :
  collect_items its !! lang
  = entry_of <$> last (filter (fun it => sets_entry lang it = true) its).
Proof. apply collect_items_lookup. Qed.

Lemma sets_entry_inv lang it :
  sets_entry lang it = true ->
  lang <> ""%string
  /\ item_lg it = Some lang
  /\ exists label, item_label it = Some label /\ label <> ""%string
                   /\ entry_of it = strip label.
Proof.
  unfold sets_entry, entry_of. intros H.
  apply andb_prop in H as [H Hlabel]. apply andb_prop in H as [Hlg Hlang].
  apply bool_decide_eq_true_1 in Hlg. rewrite Hlg in Hlang.
  destruct (truthy_inv _ Hlang) as (c & l & E). injection E as ->.
  destruct (truthy_inv _ Hlabel) as (c' & l' & E'). rewrite E'.
  split; [discriminate|]. split; [exact Hlg|].
  eexists. split; [reflexivity|]. split; [discriminate|reflexivity].
Qed.

Lemma collect_items_entry_inv (its : list item) (lang v : string) :
  collect_items its !! lang = Some v ->
  lang <> ""%string
  /\ strip v = v
  /\ exists it label,
       it ∈ its /\ item_lg it = Some lang
       /\ item_label it = Some label /\ label <> ""%string
       /\ v = strip label.
Proof.
  rewrite collect_items_lookup. intros H.
  destruct (last _) as [it|] eqn:El; [|discriminate H].
  injection H as <-.
  apply last_Some_elem_of, list_elem_of_filter in El as [Hs Hin].
  destruct (sets_entry_inv lang it Hs) as (Hlang & Hlg & label & Hl & Hne & E).
  split; [exact Hlang|]. split.
  - rewrite E. apply strip_idem.
  - exists it, label. auto.
Qed.

(** X9.  What [items] holds: no key is the empty string, and every entry
    is the stripped label of an item of the playlist with that language
    and a label that is not empty, so that stripping it again changes
    nothing. *)
Theorem collect_items_entries (its : list item) (lang v : string) :
  collect_items its !! lang = Some v ->
  lang <> ""%string
  /\ strip v = v
  /\ exists it label,
       it ∈ its /\ item_lg it = Some lang
       /\ item_label it = Some label /\ label <> ""%string
       /\ v = strip label.
Proof. apply collect_items_entry_inv. Qed.

Lemma collect_items_entries_witness :
  strip "Title"%string = "Title"%string.
Proof.
  apply (collect_items_entries
           [Item (Some "en") (Some " Title ")]%string "en" "Title").
  reflexivity.
Defined.

Lemma first_preferred_Some items preference v :
  first_preferred items preference = Some v ->
  exists (i : nat) (p : string),
    preference !! i = Some p /\ items !! p = Some v /\ v <> ""%string
    /\ forall (j : nat) (q : string),
         (j < i)%nat -> preference !! j = Some q ->
         truthy (items !! q) = false.
Proof.
  induction preference as [|p preference IH]; [discriminate|].
  cbn [first_preferred]. destruct (truthy (items !! p)) eqn:E.
  - intros H. exists 0%nat, p. split; [reflexivity|]. split; [exact H|].
    split.
    + rewrite H in E. intros ->. discriminate E.
    + intros j q Hj. lia.
  - intros H. destruct (IH H) as (i & p' & Hi & Hp & Hv & Hbefore).
    exists (S i), p'. split; [exact Hi|]. split; [exact Hp|].
    split; [exact Hv|].
    intros [|j] q Hj Hq.
    + injection Hq as <-. exact E.
    + apply (Hbefore j q); [lia|exact Hq].
Qed.

Lemma first_preferred_None items preference :
  first_preferred items preference = None ->
  forall p, p ∈ preference -> truthy (items !! p) = false.
Proof.
  induction preference as [|q preference IH]; intros H p Hp;
    [inversion Hp|].
  cbn [first_preferred] in H. destruct (truthy (items !! q)) eqn:E.
  - rewrite H in E. discriminate E.
  - apply elem_of_cons in Hp as [->|Hp]; [exact E|]. apply IH; assumption.
Qed.

(** X10.  What the loop of lines 80-82 returns is never the empty string
    and never an entry of a language outside the preference list: a
    returned value is the entry of a language of the list, with only
    absent or empty entries for the languages before it, and [None] is
    returned only when every language of the list has an absent or empty
    entry. *)
Theorem first_preferred_sound
    (items : gmap string string) (preference : list string) :
  (forall v,
      first_preferred items preference = Some v ->
      exists (i : nat) (p : string),
        preference !! i = Some p /\ items !! p = Some v /\ v <> ""%string
        /\ forall (j : nat) (q : string),
             (j < i)%nat -> preference !! j = Some q ->
             truthy (items !! q) = false)
  /\ (first_preferred items preference = None ->
      forall p, p ∈ preference -> truthy (items !! p) = false).
Proof.
  split; [apply first_preferred_Some|apply first_preferred_None].
Qed.

Lemma first_preferred_sound_witness :
  exists (i : nat) (p : string),
    ["en"; "int"]%string !! i = Some p
    /\ (<["int" := "Title"]> (<["en" := ""]> ∅) : gmap string string)%string
       !! p = Some "Title"%string
    /\ "Title"%string <> ""%string
    /\ forall (j : nat) (q : string),
         (j < i)%nat -> ["en"; "int"]%string !! j = Some q ->
         truthy
           ((<["int" := "Title"]> (<["en" := ""]> ∅) : gmap string string)%string
            !! q) = false.
Proof.
  apply (proj1 (first_preferred_sound
                  (<["int" := "Title"]> (<["en" := ""]> ∅))%string
                  ["en"; "int"]%string) "Title"%string).
  reflexivity.
Defined.

(** X11.  The title of line 89, [get_item('title', ...) or video_id], is
    the video identifier or the stripped label of a title item in a
    language of the preference list, and it is not empty unless the video
    identifier is. *)
Theorem title_or_video_id
    (its : list item) (preference : list string) (video_id : string) :
  let t := or_else (get_item its preference) video_id in
  (video_id <> ""%string -> t <> ""%string)
  /\ (t = video_id
      \/ exists p it label,
           p ∈ preference /\ it ∈ its /\ item_lg it = Some p
           /\ item_label it = Some label /\ t = strip label).
Proof.
  cbn zeta. unfold get_item.
  destruct (first_preferred (collect_items its) preference) as [v|] eqn:E.
  - destruct (first_preferred_Some _ _ _ E) as (i & p & Hi & Hp & Hv & _).
    rewrite (or_else_truthy (Some v) v video_id eq_refl Hv).
    split; [intros _; exact Hv|]. right.
    destruct (collect_items_entry_inv its p v Hp)
      as (_ & _ & it & label & Hin & Hlg & Hl & _ & Hstrip).
    exists p, it, label. repeat split; try assumption.
    eapply list_elem_of_lookup_2, Hi.
  - cbn. split; [auto|]. left. reflexivity.
Qed.

Lemma title_or_video_id_witness :
  or_else (get_item [Item (Some "fr") (Some "Titre")]%string
             ["en"; "int"]%string) "I107758"%string
  <> ""%string.
Proof.
  apply (proj1 (title_or_video_id [Item (Some "fr") (Some "Titre")]%string
                  ["en"; "int"]%string "I107758"%string)).
  discriminate.
Defined.

(** ** The loop over the files *)

Lemma formats_loop_length rank files :
  (length (formats_loop rank files []) <= length files)%nat.
Proof.
  induction files as [|f files IH]; [reflexivity|]. cbn [formats_loop].
  destruct (file_url f) as [[|c u]|]; cbn [length]; try lia.
  rewrite formats_loop_app, length_app. cbn. lia.
Qed.

(** X12.  The loop of lines 98-109 only appends: the formats collected so
    far stay in front, in their order; running it over two lists of files
    in a row is running it over the first and then over the second; and
    it makes at most one format per file. *)
Theorem formats_loop_appends
    (rank : option string -> Z) (files more : list file_)
    (collected : list format) :
  formats_loop rank files collected
  = collected ++ formats_loop rank files []
  /\ formats_loop rank (files ++ more) collected
     = formats_loop rank more (formats_loop rank files collected)
  /\ (length (formats_loop rank files []) <= length files)%nat.
Proof.
  split; [apply formats_loop_app|]. split; [|apply formats_loop_length].
  revert collected. induction files as [|f files IH]; intros collected;
    [reflexivity|].
  cbn [app formats_loop]. destruct (file_url f) as [[|c u]|]; apply IH.
Qed.

(** ** The languages of the tracks *)

Lemma find_track_Some t audios l :
  find_track t audios = Some l ->
  exists before a after,
    audios = before ++ a :: after
    /\ (forall b, b ∈ before -> trackIdentifier b <> Some t)
    /\ trackIdentifier a = Some t
    /\ audio_language a = Some l.
Proof.
  induction audios as [|a audios IH]; [discriminate|].
  cbn [find_track]. case_bool_decide as E.
  - intros H. exists [], a, audios. repeat split; try assumption.
    intros b Hb. inversion Hb.
  - intros H. destruct (IH H) as (before & a' & after & -> & Hb & Ha & Hl).
    exists (a :: before), a', after. repeat split; try assumption.
    intros b Hb'. apply elem_of_cons in Hb' as [->|Hb']; [exact E|].
    apply Hb, Hb'.
Qed.

(** X13.  [_get_lang] makes up no language: when it returns one, the
    track identifier is present, [meetingAudio] has an entry with this
    identifier, and the language is that of the first such entry. *)
Theorem _get_lang_sound
    (meetingAudio : meeting_audio) (track_identifier : option string)
    (l : string) :
  _get_lang meetingAudio track_identifier = Return (Some l) ->
  exists t before a after,
    track_identifier = Some t
    /\ meetingAudio = AudioList (before ++ a :: after)
    /\ (forall b, b ∈ before -> trackIdentifier b <> Some t)
    /\ trackIdentifier a = Some t
    /\ audio_language a = Some l.
Proof.
  destruct track_identifier as [t|]; [|discriminate]. cbn [_get_lang].
  destruct meetingAudio as [| |audios]; try discriminate.
  intros H. injection H as H.
  destruct (find_track_Some _ _ _ H)
    as (before & a & after & -> & Hb & Ha & Hl).
  exists t, before, a, after. repeat split; assumption.
Qed.

Lemma _get_lang_sound_witness :
  exists t before a after,
    Some "a2"%string = Some t
    /\ AudioList
         [Audio (Some "a1") (Some "en"); Audio (Some "a2") (Some "fr")]%string
       = AudioList (before ++ a :: after)
    /\ (forall b, b ∈ before -> trackIdentifier b <> Some t)
    /\ trackIdentifier a = Some t
    /\ audio_language a = Some "fr"%string.
Proof.
  apply (_get_lang_sound
           (AudioList [Audio (Some "a1") (Some "en");
                       Audio (Some "a2") (Some "fr")]%string)
           (Some "a2"%string) "fr"%string).
  reflexivity.
Defined.

(** ** The format dicts in the store *)



Lemma iter_resolved_fields ma n d :
  hls_url (Nat.iter n (resolved ma) d) = hls_url d
  /\ hls_format_id (Nat.iter n (resolved ma) d) = hls_format_id d.
Proof.
  induction n as [|n [IH1 IH2]]; [split; reflexivity|].
  rewrite Nat.iter_succ. set (d' := Nat.iter n (resolved ma) d) in *.
  unfold resolved.
  destruct (_get_lang ma (language d'));
    split; first [exact IH1|exact IH2].
Qed.

(** X15.  The loop of lines 203-209 changes nothing of a format dict but
    its language, makes and drops no dict, and leaves alone a dict that is
    in none of the lists the expander returned. *)
Theorem assemble_frame
    (meetingAudio : meeting_audio) (h : store)
    (expansions : list (list loc * gmap string (list subtitle))) (l : loc) :
  let st := assemble meetingAudio h expansions in
  hls_url <$> heap st !! l = hls_url <$> h !! l
  /\ hls_format_id <$> heap st !! l = hls_format_id <$> h !! l
  /\ (heap st !! l = None <-> h !! l = None)
  /\ (l ∉ concat (expansions.*1) -> heap st !! l = h !! l).
Proof.
  cbn zeta. destruct (assemble_done meetingAudio h expansions)
    as (done & Hpre & _ & Hl).
  rewrite Hl. destruct (h !! l) as [d|] eqn:E; cbn.
  - destruct (iter_resolved_fields meetingAudio (occurrences l done) d)
      as [-> ->].
    repeat split; try discriminate.
    intros Hin. rewrite occurrences_0; [reflexivity|].
    intros Hd. apply Hin. destruct Hpre as [k ->].
    apply elem_of_app. left. exact Hd.
  - repeat split; reflexivity.
Qed.

Lemma assemble_frame_witness :
  heap
    (assemble (AudioList [Audio (Some "a1") (Some "en")]%string)
       (<[ 0%nat := HlsFormat "u0" None (Some "a1") ]>
          (<[ 1%nat := HlsFormat "u1" None (Some "a1") ]> ∅))%string
       [([0%nat], ∅)]) !! 1%nat
  = Some (HlsFormat "u1" None (Some "a1"))%string.
Proof.
  destruct (assemble_frame (AudioList [Audio (Some "a1") (Some "en")]%string)
              (<[ 0%nat := HlsFormat "u0" None (Some "a1") ]>
                 (<[ 1%nat := HlsFormat "u1" None (Some "a1") ]> ∅))%string
              [([0%nat], ∅)] 1%nat) as (_ & _ & _ & H).
  rewrite H; [reflexivity|].
  apply (bool_decide_unpack _). vm_compute. exact I.
Defined.

(** ** Timestamps that reach the parse unchanged *)

Lemma offset_no_dot o :
  fits offset_regex o = true -> Forall (fun a => a <> "."%char) o.
Proof.
  intros Ho. eapply Forall_impl; [apply fits_chars, Ho|].
  intros a Ha ->. discriminate Ha.
Qed.

Lemma short_fraction_unchanged p f o t :
  fits date_time_regex p = true -> forallb is_digit f = true ->
  (length f <= 6)%nat -> fits offset_regex o = true ->
  no_long_fraction t = true ->
  no_long_fraction (p ++ "."%char :: f ++ o ++ t) = true.
Proof.
  intros Hp Hf Hlen Ho Ht.
  rewrite (no_long_fraction_skip p _ (date_time_no_dot p Hp)).
  cbn [no_long_fraction].
  rewrite (long_fraction_short f (o ++ t) Hf (fits_offset_no_digit o t Ho))
    by lia.
  rewrite (no_long_fraction_skip f _ (digits_no_dot f Hf)).
  rewrite (no_long_fraction_skip o _ (offset_no_dot o Ho)). exact Ht.
Qed.

(** X16.  A timestamp with one to six fractional digits, whose text
    after the offset has no dot followed by seven digits, is parsed as it
    stands in the format with microseconds; a timestamp with the offset
    right after the seconds is parsed as it stands in the format without
    microseconds, whatever follows the offset. *)
Theorem parse_datetime_unchanged
    (dfs : string -> string -> result datetime) (p f o t : list ascii) :
  fits date_time_regex p = true ->
  fits offset_regex o = true ->
  (forallb is_digit f = true -> (1 <= length f <= 6)%nat ->
   no_long_fraction t = true ->
   _parse_datetime dfs (str (p ++ "."%char :: f ++ o ++ t))
   = on_parse (dfs (str (p ++ "."%char :: f ++ o ++ t))
                 datetime_format_with_microseconds))
  /\ _parse_datetime dfs (str (p ++ o ++ t))
     = on_parse (dfs (str (p ++ o ++ t))
                   datetime_format_without_microseconds).
Proof.
  intros Hp Ho. split.
  - intros Hf [H1 H6] Ht.
    assert (Hm : re_match datetime_regex_with_microseconds
                   (str (p ++ "."%char :: f ++ o ++ t)) = true).
    { rewrite re_match_str,
        (with_microseconds_shape p f (o ++ t) Hp Hf
           (fits_offset_no_digit o t Ho)),
        (rmatch_fixed_all _ o t offset_regex_fixed Ho).
      replace (1 <=? length f)%nat with true
        by (symmetry; apply Nat.leb_le; lia).
      replace (length f <=? 7)%nat with true
        by (symmetry; apply Nat.leb_le; lia).
      reflexivity. }
    rewrite (parse_datetime_with dfs _ Hm), re_sub_str.
    unfold truncate_fraction. rewrite sub_group1_id; [reflexivity..|].
    apply short_fraction_unchanged; assumption.
  - assert (Hm : re_match datetime_regex_without_microseconds
                   (str (p ++ o ++ t)) = true).
    { rewrite re_match_str. unfold datetime_regex_without_microseconds.
      rewrite (rmatch_fixed_app _ _ _ _ date_time_regex_fixed Hp),
        (rmatch_fixed_all _ o t offset_regex_fixed Ho). reflexivity. }
    assert (Hw : re_match datetime_regex_with_microseconds
                   (str (p ++ o ++ t)) = false).
    { destruct (re_match datetime_regex_with_microseconds
                  (str (p ++ o ++ t))) eqn:E; [|reflexivity].
      rewrite (without_after_with_same _ E) in Hm. discriminate Hm. }
    apply parse_datetime_without; assumption.
Qed.

Lemma parse_datetime_unchanged_witness :
  _parse_datetime Helper.datetime_from_str ts_6_digits
  = on_parse (Helper.datetime_from_str ts_6_digits
                datetime_format_with_microseconds).
Proof.
  destruct (parse_datetime_unchanged Helper.datetime_from_str
              (chars "2022-09-14T09:00:00") (chars "123456")
              (chars "+02:00") []) as [H _]; [reflexivity..|].
  apply H; [reflexivity|cbn; lia|reflexivity].
Defined.

(** ** Seven fractional digits and more *)

(** C1 (as amended).  A timestamp made of a date and time, a dot, a run of
    fractional digits and a rest that starts with a UTC offset.  With
    exactly seven fractional digits the pre-check with microseconds
    matches, the substitution cuts the fraction down to its first six
    digits, the string so cut is the one that is parsed, in the format
    with microseconds, and what [_parse_datetime] returns is what it
    returns on the timestamp with those six digits: the instant that the
    parse reads from the six-digit string.  With eight or more fractional
    digits neither pre-check matches and [_parse_datetime] returns
    [None]. *)
Theorem parse_datetime_fraction_digits
    (dfs : string -> string -> result datetime) (p f z : list ascii) :
  fits date_time_regex p = true ->
  forallb is_digit f = true ->
  starts_with_offset z ->
  let s := str (p ++ "."%char :: f ++ z) in
  let six := str (p ++ "."%char :: take 6 f ++ z) in
  let parsed := str (p ++ "."%char :: take 6 f ++ truncate_fraction z) in
  (length f = 7%nat ->
     re_match datetime_regex_with_microseconds s = true
     /\ re_sub_group1 pattern_group1 pattern_rest s = parsed
     /\ _parse_datetime dfs s
        = on_parse (dfs parsed datetime_format_with_microseconds)
     /\ _parse_datetime dfs six
        = on_parse (dfs parsed datetime_format_with_microseconds)
     /\ (no_long_fraction z = true -> parsed = six)
     /\ (forall d,
           dfs parsed datetime_format_with_microseconds = Return d ->
           _parse_datetime dfs s = Return (Some d)
           /\ _parse_datetime dfs six = Return (Some d)))
  /\ ((8 <= length f)%nat ->
        re_match datetime_regex_with_microseconds s = false
        /\ re_match datetime_regex_without_microseconds s = false
        /\ _parse_datetime dfs s = Return None).
Proof.
  intros Hp Hf Hz s six parsed.
  pose proof (starts_with_offset_no_digit z Hz) as Hnd.
  destruct Hz as [rest Hrest].
  assert (Hsub : forall g : list ascii,
             forallb is_digit g = true -> (6 <= length g)%nat ->
             re_sub_group1 pattern_group1 pattern_rest
               (str (p ++ "."%char :: g ++ z))
             = str (p ++ "."%char :: take 6 g ++ truncate_fraction z)).
  { intros g Hg Hlen. rewrite re_sub_str. f_equal.
    rewrite (truncate_fraction_skip _ _ (date_time_no_dot _ Hp)). f_equal.
    rewrite <- (take_drop 6 g) at 1. rewrite <- app_assoc.
    rewrite <- (take_drop 6 g), forallb_app in Hg.
    apply andb_prop in Hg as [Hg1 Hg2].
    apply truncate_fraction_digits; auto.
    rewrite length_take. lia. }
  assert (Hwith : forall g : list ascii,
             forallb is_digit g = true ->
             re_match datetime_regex_with_microseconds
               (str (p ++ "."%char :: g ++ z))
             = (1 <=? length g)%nat && (length g <=? 7)%nat).
  { intros g Hg. rewrite re_match_str, (with_microseconds_shape _ _ _ Hp Hg Hnd).
    rewrite Hrest. destruct (_ && _); reflexivity. }
  split.
  - intros Hlen.
    assert (H6 : forallb is_digit (take 6 f) = true).
    { rewrite <- (take_drop 6 f), forallb_app in Hf.
      apply andb_prop in Hf as [Hf1 _]. exact Hf1. }
    assert (Hm : re_match datetime_regex_with_microseconds s = true)
      by (unfold s; rewrite (Hwith f Hf), Hlen; reflexivity).
    assert (Hm6 : re_match datetime_regex_with_microseconds six = true)
      by (unfold six; rewrite (Hwith _ H6), length_take, Hlen; reflexivity).
    assert (Hs : re_sub_group1 pattern_group1 pattern_rest s = parsed)
      by (apply Hsub; [exact Hf|lia]).
    assert (Hs6 : re_sub_group1 pattern_group1 pattern_rest six = parsed).
    { unfold six, parsed. rewrite (Hsub (take 6 f) H6)
        by (rewrite length_take; lia).
      rewrite take_take. reflexivity. }
    assert (Hp7 : _parse_datetime dfs s
                  = on_parse (dfs parsed datetime_format_with_microseconds))
      by (rewrite (parse_datetime_with dfs _ Hm), Hs; reflexivity).
    assert (Hp6 : _parse_datetime dfs six
                  = on_parse (dfs parsed datetime_format_with_microseconds))
      by (rewrite (parse_datetime_with dfs _ Hm6), Hs6; reflexivity).
    repeat split; try assumption.
    + intros Hno. unfold parsed, six, truncate_fraction.
      rewrite sub_group1_id; [reflexivity..|exact Hno].
    + rewrite Hp7, H. reflexivity.
    + rewrite Hp6, H. reflexivity.
  - intros Hlen.
    assert (Hm : re_match datetime_regex_with_microseconds s = false).
    { unfold s. rewrite (Hwith f Hf).
      replace (length f <=? 7)%nat with false
        by (symmetry; apply Nat.leb_gt; lia).
      apply andb_false_r. }
    assert (Hm' : re_match datetime_regex_without_microseconds s = false)
      by (unfold s; rewrite re_match_str, (without_microseconds_dot _ _ Hp);
          reflexivity).
    auto using parse_datetime_no_match.
Qed.

Lemma parse_datetime_fraction_digits_witness :
  re_match datetime_regex_with_microseconds ts_7_digits = true
  /\ re_sub_group1 pattern_group1 pattern_rest ts_7_digits = ts_6_digits
  /\ _parse_datetime Helper.datetime_from_str ts_7_digits
     = Return (Some (mk_datetime 2022 9 14 9 0 0 123456 (Some 7200000000)))
  /\ _parse_datetime Helper.datetime_from_str ts_6_digits
     = Return (Some (mk_datetime 2022 9 14 9 0 0 123456 (Some 7200000000))).
Proof.
  destruct (parse_datetime_fraction_digits Helper.datetime_from_str
              (chars "2022-09-14T09:00:00") (chars "1234567")
              (chars "+02:00")) as [H _].
  - reflexivity.
  - reflexivity.
  - exists []. reflexivity.
  - destruct H as (H1 & H2 & _ & _ & _ & H6); [reflexivity|].
    split; [exact H1|]. split; [exact H2|].
    apply (H6 (mk_datetime 2022 9 14 9 0 0 123456 (Some 7200000000))).
    vm_compute. reflexivity.
Defined.

(** ** The resolver on the items of the playlist *)

(** C4.  The mapping from language codes to candidate strings that
    [get_item] builds keeps, for a language, the stripped label of the
    last item with this language and a label that is not empty.  For
    every list of items and every preference list, [get_item] returns the
    candidate of the first language of the preference list whose
    candidate is present and not empty, and [None] when no language of
    the list has one; the title of line 89 is that candidate for the
    languages of [preferred_langs], and the video identifier when none of
    them has one. *)
Theorem get_item_resolves
    (its : list Europa.item) (preference : list string)
    (sitelang : option string) (video_id : string) :
  let items := collect_items its in
  (forall lang,
      items !! lang
      = entry_of <$> last (filter (fun it => sets_entry lang it = true) its))
  /\ (forall (i : nat) (p v : string),
        preference !! i = Some p ->
        items !! p = Some v -> v <> ""%string ->
        (forall (j : nat) (q : string),
            (j < i)%nat -> preference !! j = Some q ->
            truthy (items !! q) = false) ->
        get_item its preference = Some v)
  /\ ((forall p, p ∈ preference -> truthy (items !! p) = false) ->
      get_item its preference = None)
  /\ (forall (i : nat) (p v : string),
        preferred_langs sitelang !! i = Some p ->
        items !! p = Some v -> v <> ""%string ->
        (forall (j : nat) (q : string),
            (j < i)%nat -> preferred_langs sitelang !! j = Some q ->
            truthy (items !! q) = false) ->
        Europa.title its sitelang video_id = v)
  /\ ((forall p, p ∈ preferred_langs sitelang ->
                 truthy (items !! p) = false) ->
      Europa.title its sitelang video_id = video_id).
Proof.
  intros items. split; [apply collect_items_lookup|].
  unfold Europa.title, get_item. fold items.
  split; [|split; [|split]].
  - intros i p v Hi Hp Hv Hb.
    apply (proj1 (first_preferred_first items preference video_id)
             i p v Hi Hp Hv Hb).
  - intros Hn.
    apply (proj2 (first_preferred_first items preference video_id) Hn).
  - intros i p v Hi Hp Hv Hb.
    apply (proj1 (first_preferred_first items (preferred_langs sitelang)
                    video_id) i p v Hi Hp Hv Hb).
  - intros Hn.
    apply (proj2 (first_preferred_first items (preferred_langs sitelang)
                    video_id) Hn).
Qed.

Lemma get_item_resolves_witness :
  get_item [Item (Some "fr") (Some "Titre"); Item (Some "int") (Some " Title ");
            Item (Some "en") (Some "  ")]%string
    ["en"; "int"; "fr"]%string = Some "Title"%string
  /\ Europa.title
       [Item (Some "fr") (Some "Titre"); Item (Some "int") (Some " Title ");
        Item (Some "en") (Some "  ")]%string
       (Some "en"%string) "I107758"%string = "Title"%string
  /\ Europa.title [Item (Some "fr") (Some "Titre")]%string
       (Some "en"%string) "I107758"%string = "I107758"%string.
Proof.
  destruct (get_item_resolves
              [Item (Some "fr") (Some "Titre");
               Item (Some "int") (Some " Title ");
               Item (Some "en") (Some "  ")]%string
              ["en"; "int"; "fr"]%string (Some "en"%string) "I107758"%string)
    as (_ & Hget & _ & Htitle & _).
  destruct (get_item_resolves [Item (Some "fr") (Some "Titre")]%string
              ["en"; "int"; "fr"]%string (Some "en"%string) "I107758"%string)
    as (_ & _ & _ & _ & Hdefault).
  split; [|split].
  - apply (Hget 1%nat "int"%string "Title"%string);
      [reflexivity|reflexivity|discriminate|].
    intros [|j] q Hj Hq; [|lia]. injection Hq as <-. reflexivity.
  - apply (Htitle 1%nat "int"%string "Title"%string);
      [reflexivity|reflexivity|discriminate|].
    intros [|j] q Hj Hq; [|lia]. injection Hq as <-. reflexivity.
  - apply Hdefault. intros p Hp.
    apply list_elem_of_In in Hp. destruct Hp as [<-|[<-|[]]]; reflexivity.
Defined.
